(** * DocGen2: a shallow embedding of the document assembly engine

    Sources embedded here:
    - [internal/docgen] (unnamed parts 009, 010, 011, 012 and [types.go]):
      [RenderComponent], [GetComponent], [Clone], [ToBytes],
      [AssembleDocument], [addComponentToBody];
    - [assets/schemas/rules.cue] with [internal/validator/validator.go]:
      [Validate].

    Conventions.  Go strings and byte slices are Rocq [string]s (a string is
    a sequence of 8-bit [ascii] values, i.e. bytes).  A Go map is an
    association list with distinct keys whose order is the order in which
    one particular [range] loop visits it: Go leaves that order unspecified
    and the runtime randomises it, so every function whose result depends on
    it takes the order as an explicit argument.  The external libraries
    (etree, archive/zip, compress/flate) are modelled by functions of this
    file, or by a parameter where their output is irrelevant (deflate). *)

From Stdlib Require Import String Ascii List Bool ZArith Lia.
From Stdlib Require Import Numbers.DecimalString Sorting.Permutation.
Import ListNotations.
Open Scope string_scope.
Set Warnings "-register-all".

(* ------------------------------------------------------------------ *)
(** ** Characters and small string helpers *)

Definition chr (n : nat) : ascii := ascii_of_nat n.
Definition str1 (c : ascii) : string := String c EmptyString.

(** The double quote, written by its code (34). *)
Definition dq : string := str1 (chr 34).

Definition is_char (c : ascii) (n : nat) : bool := Nat.eqb (nat_of_ascii c) n.

Fixpoint contains_char (c : ascii) (s : string) : bool :=
  match s with
  | EmptyString => false
  | String d s' => Ascii.eqb c d || contains_char c s'
  end.

Fixpoint concat_str (l : list string) : string :=
  match l with
  | [] => EmptyString
  | s :: l' => s ++ concat_str l'
  end.

Fixpoint join (sep : string) (l : list string) : string :=
  match l with
  | [] => EmptyString
  | [s] => s
  | s :: l' => s ++ sep ++ join sep l'
  end.

(** Byte-wise string order, as Go compares strings. *)
Fixpoint str_ltb (a b : string) : bool :=
  match a, b with
  | EmptyString, EmptyString => false
  | EmptyString, String _ _ => true
  | String _ _, EmptyString => false
  | String x a', String y b' =>
      if Nat.ltb (nat_of_ascii x) (nat_of_ascii y) then true
      else if Nat.ltb (nat_of_ascii y) (nat_of_ascii x) then false
      else str_ltb a' b'
  end.

Fixpoint lookup {A} (k : string) (m : list (string * A)) : option A :=
  match m with
  | [] => None
  | (k', v) :: m' => if String.eqb k k' then Some v else lookup k m'
  end.

(** [m[k] = v] on a Go map: overwrite the key if present, else add it. *)
Fixpoint map_insert {A} (k : string) (v : A) (m : list (string * A))
  : list (string * A) :=
  match m with
  | [] => [(k, v)]
  | (k', v') :: m' =>
      if String.eqb k k' then (k, v) :: m' else (k', v') :: map_insert k v m'
  end.

(* ------------------------------------------------------------------ *)
(** ** JSON values ([interface{}] after [json.Unmarshal]) and [fmt %v] *)

Inductive value : Type :=
| VNull
| VBool (b : bool)
| VNum (z : Z)            (** a JSON number whose float64 is the integer z, |z| < 2^53 *)
| VStr (s : string)
| VList (l : list value)
| VObj (m : list (string * value)).

Definition Z_to_dec (z : Z) : string := NilEmpty.string_of_int (Z.to_int z).

(** [a] without its trailing decimal zeros ([fuel] bounds the divisions). *)
Fixpoint strip_zeros (fuel : nat) (a : Z) : Z :=
  match fuel with
  | O => a
  | S f => if Z.eqb (Z.modulo a 10) 0 then strip_zeros f (Z.div a 10) else a
  end.

(** [strconv.FormatFloat(f, 'g', -1, 64)] (the [%v] of a float64) for an
    integral [f] with [|f| < 2^53]: such a float is exact and no shorter
    decimal rounds to it, so its shortest digits are its decimal digits
    without trailing zeros.  With [exp] the decimal exponent, [%e] is used
    when [exp >= 6] (the precision [6] of the shortest form): one digit,
    a point and the other digits if any, [e+] and at least two exponent
    digits; otherwise the integer is written in decimal. *)
Definition format_float_int (z : Z) : string :=
  let a := Z.abs z in
  let sign := if Z.ltb z 0 then "-" else EmptyString in
  let ds := Z_to_dec a in
  if Z.ltb a 1000000 then sign ++ ds
  else
    let t := Z_to_dec (strip_zeros (String.length ds) a) in
    let exp := Z.of_nat (String.length ds - 1) in
    let mant := match t with
                | String c EmptyString => str1 c
                | String c rest => String c ("." ++ rest)
                | EmptyString => EmptyString
                end in
    sign ++ mant ++ "e+" ++ (if Z.ltb exp 10 then "0" else EmptyString) ++ Z_to_dec exp.

Fixpoint insert_by_key {A} (kv : string * A) (l : list (string * A))
  : list (string * A) :=
  match l with
  | [] => [kv]
  | kv' :: l' =>
      if str_ltb (fst kv') (fst kv) then kv' :: insert_by_key kv l'
      else kv :: l
  end.

Definition sort_by_key {A} (l : list (string * A)) : list (string * A) :=
  fold_right insert_by_key [] l.

(** [fmt.Sprintf("%v", v)]: a float64 prints as [format_float_int], [nil] as [<nil>], a slice as [[a b c]] and a map as
    [map[k1:v1 k2:v2]] with its keys sorted. *)
Fixpoint sprint_v (v : value) : string :=
  match v with
  | VNull => "<nil>"
  | VBool true => "true"
  | VBool false => "false"
  | VNum z => format_float_int z
  | VStr s => s
  | VList l => "[" ++ join " " (map sprint_v l) ++ "]"
  | VObj m =>
      "map[" ++ join " " (map snd (sort_by_key
        (map (fun kv => (fst kv, fst kv ++ ":" ++ sprint_v (snd kv))) m)))
      ++ "]"
  end.

(* ------------------------------------------------------------------ *)
(** ** [html.EscapeString]

    Go's [html.EscapeString] is the replacer
    [& -> &amp;, ' -> &#39;, < -> &lt;, > -> &gt;, (double quote) -> &#34;]:
    it works byte by byte. *)

Definition html_escape_char (c : ascii) : string :=
  if is_char c 38 then "&amp;"
  else if is_char c 39 then "&#39;"
  else if is_char c 60 then "&lt;"
  else if is_char c 62 then "&gt;"
  else if is_char c 34 then "&#34;"
  else str1 c.

Fixpoint html_escape (s : string) : string :=
  match s with
  | EmptyString => EmptyString
  | String c s' => html_escape_char c ++ html_escape s'
  end.

(* ------------------------------------------------------------------ *)
(** ** [strings.Replacer]

    [strings.NewReplacer(old1, new1, old2, new2, ...)].Replace(s) scans [s]
    from left to right; at each position it takes, among the old strings
    that start there, the one given first in the argument list, writes its
    replacement and continues after the matched text (the output is never
    scanned again); where no old string starts, the byte is copied.  This is
    the behaviour of the generic replacer and of the single-string replacer
    (leftmost, non-overlapping), which are the two used with old strings of
    length > 1.  [skip] counts the bytes of a match still to be passed. *)

Fixpoint first_match (pats : list (string * string)) (s : string)
  : option (string * string) :=
  match pats with
  | [] => None
  | (o, n) :: pats' => if String.prefix o s then Some (o, n) else first_match pats' s
  end.

Fixpoint replace_from (pats : list (string * string)) (s : string) (skip : nat)
  : string :=
  match s with
  | EmptyString => EmptyString
  | String c s' =>
      match skip with
      | S k => replace_from pats s' k
      | O =>
          match first_match pats s with
          | Some (o, n) => n ++ replace_from pats s' (pred (String.length o))
          | None => String c (replace_from pats s' 0)
          end
      end
  end.

Definition Replace (pats : list (string * string)) (s : string) : string :=
  replace_from pats s 0.

(* ------------------------------------------------------------------ *)
(** ** [RenderComponent] (unnamed part 009)

    [props] is the Go map in the order in which the [range props] loop of
    this call visits it. *)

Definition placeholder (key : string) : string := "{{ " ++ key ++ " }}".

Definition replacement_pair (kv : string * value) : string * string :=
  (placeholder (fst kv), html_escape (sprint_v (snd kv))).

Definition RenderComponent (template : string) (props : list (string * value))
  : string :=
  match props with
  | [] => template
  | _ => Replace (map replacement_pair props) template
  end.

(* ------------------------------------------------------------------ *)
(** ** Plans and the engine ([types.go]) *)

Record ComponentInstance := {
  Component : string;
  Props : list (string * value)
}.

Record DocumentPlan := {
  Filename : string;
  Body : list ComponentInstance
}.

(** [GetComponent]: exact, case-sensitive lookup in the component map. *)
Inductive docgen_error :=
| ComponentNotFoundError (name : string)
| RenderError (msg : string)
| AssemblyError (msg : string)       (** [NewDocGenError("assembly", fmt.Errorf(msg))] *)
| AddComponentError (name : string) (inner : docgen_error)
| AssemblyWrapped (inner : docgen_error).  (** [NewDocGenError("assembly", inner)] *)

Inductive res (A : Type) :=
| Ok (a : A)
| Err (e : docgen_error).
Arguments Ok {A} a.
Arguments Err {A} e.

Definition GetComponent (components : list (string * string)) (name : string)
  : res string :=
  match lookup name components with
  | Some t => Ok t
  | None => Err (ComponentNotFoundError name)
  end.

(* ------------------------------------------------------------------ *)
(** ** XML trees (github.com/beevik/etree)

    A document is the list of its top-level tokens; an element keeps its
    qualified tag ([w:body]), its attributes in order and its child tokens. *)

Inductive xnode :=
| XElem (tag : string) (attrs : list (string * string)) (kids : list xnode)
| XText (s : string)
| XComment (s : string)
| XProcInst (target data : string).

Definition is_ws (c : ascii) : bool :=
  is_char c 32 || is_char c 9 || is_char c 10 || is_char c 13.

Definition is_letter (c : ascii) : bool :=
  let n := nat_of_ascii c in (Nat.leb 65 n && Nat.leb n 90) || (Nat.leb 97 n && Nat.leb n 122).

Definition is_digit (c : ascii) : bool :=
  let n := nat_of_ascii c in Nat.leb 48 n && Nat.leb n 57.

Definition is_name_start (c : ascii) : bool := is_letter c || is_char c 95 || is_char c 58.

Definition is_name_char (c : ascii) : bool :=
  is_name_start c || is_digit c || is_char c 45 || is_char c 46.

Fixpoint take_name (s : string) : string * string :=
  match s with
  | String c s' =>
      if is_name_char c then let (n, r) := take_name s' in (String c n, r)
      else (EmptyString, s)
  | EmptyString => (EmptyString, EmptyString)
  end.

Fixpoint skip_ws (s : string) : string :=
  match s with
  | String c s' => if is_ws c then skip_ws s' else s
  | EmptyString => EmptyString
  end.

(** [(before, rest)] where [rest] starts at the first [c] (or is empty). *)
Fixpoint split_at_char (c : ascii) (s : string) : string * string :=
  match s with
  | EmptyString => (EmptyString, EmptyString)
  | String d s' =>
      if Ascii.eqb c d then (EmptyString, s)
      else let (b, r) := split_at_char c s' in (String d b, r)
  end.

(** [(before, after)] around the first occurrence of [pat]. *)
Fixpoint split_at_str (pat s : string) : option (string * string) :=
  if String.prefix pat s then Some (EmptyString, substring (String.length pat) (String.length s) s)
  else match s with
       | EmptyString => None
       | String d s' =>
           match split_at_str pat s' with
           | Some (b, r) => Some (String d b, r)
           | None => None
           end
       end.

Fixpoint dec_value (acc : nat) (s : string) : option nat :=
  match s with
  | EmptyString => Some acc
  | String c s' =>
      if is_digit c then dec_value (acc * 10 + (nat_of_ascii c - 48)) s' else None
  end.

(** Character and entity references of encoding/xml (strict mode). *)
Definition entity (name : string) : option string :=
  if String.eqb name "amp" then Some "&"
  else if String.eqb name "lt" then Some "<"
  else if String.eqb name "gt" then Some ">"
  else if String.eqb name "quot" then Some dq
  else if String.eqb name "apos" then Some "'"
  else match name with
       | String c (String d ds) =>
           if is_char c 35 then
             match dec_value 0 (String d ds) with
             | Some n => if Nat.ltb n 256 then Some (str1 (chr n)) else None
             | None => None
             end
           else None
       | _ => None
       end.

Fixpoint decode (fuel : nat) (s : string) : option string :=
  match fuel with
  | O => None
  | S f =>
      match s with
      | EmptyString => Some EmptyString
      | String c s' =>
          if is_char c 38 then
            let (nm, r) := split_at_char ";" s' in
            match r, entity nm with
            | String _ r', Some t =>
                match decode f r' with Some u => Some (t ++ u) | None => None end
            | _, _ => None
            end
          else if is_char c 60 then None
          else match decode f s' with Some u => Some (String c u) | None => None end
      end
  end.

Definition decode_text (s : string) : option string := decode (S (String.length s)) s.

Fixpoint parse_attrs (fuel : nat) (s : string)
  : option (list (string * string) * bool * string) :=
  match fuel with
  | O => None
  | S f =>
      let s := skip_ws s in
      if String.prefix "/>" s then Some ([], true, substring 2 (String.length s) s)
      else if String.prefix ">" s then Some ([], false, substring 1 (String.length s) s)
      else
        let (an, r) := take_name s in
        match an, skip_ws r with
        | String _ _, String eq r1 =>
            if is_char eq 61 then
              match skip_ws r1 with
              | String q r2 =>
                  if is_char q 34 || is_char q 39 then
                    match split_at_char q r2 with
                    | (raw, String _ r3) =>
                        match decode_text raw, parse_attrs f r3 with
                        | Some v, Some (ats, sc, rest) => Some ((an, v) :: ats, sc, rest)
                        | _, _ => None
                        end
                    | _ => None
                    end
                  else None
              | EmptyString => None
              end
            else None
        | _, _ => None
        end
  end.

(** [ReadFromString]: the tokens up to the end of the input or up to the
    first end tag ["</"], which is left to the caller. *)
Fixpoint parse_nodes (fuel : nat) (s : string) : option (list xnode * string) :=
  match fuel with
  | O => None
  | S f =>
      match s with
      | EmptyString => Some ([], EmptyString)
      | String c s1 =>
          if is_char c 60 then
            match s1 with
            | EmptyString => None
            | String d s2 =>
                if is_char d 47 then Some ([], s)
                else if is_char d 63 then
                  match split_at_str "?>" s2 with
                  | Some (body, rest) =>
                      let (target, data) := take_name body in
                      match parse_nodes f rest with
                      | Some (ns, r) => Some (XProcInst target (skip_ws data) :: ns, r)
                      | None => None
                      end
                  | None => None
                  end
                else if is_char d 33 then
                  if String.prefix "--" s2 then
                    match split_at_str "-->" (substring 2 (String.length s2) s2) with
                    | Some (body, rest) =>
                        match parse_nodes f rest with
                        | Some (ns, r) => Some (XComment body :: ns, r)
                        | None => None
                        end
                    | None => None
                    end
                  else None
                else
                  let (tag, r) := take_name s1 in
                  if String.eqb tag EmptyString then None else
                  match parse_attrs f r with
                  | Some (ats, true, rest) =>
                      match parse_nodes f rest with
                      | Some (ns, r') => Some (XElem tag ats [] :: ns, r')
                      | None => None
                      end
                  | Some (ats, false, rest) =>
                      match parse_nodes f rest with
                      | Some (kids, r1) =>
                          if String.prefix ("</" ++ tag) r1 then
                            match skip_ws (substring (2 + String.length tag)
                                             (String.length r1) r1) with
                            | String gt r2 =>
                                if is_char gt 62 then
                                  match parse_nodes f r2 with
                                  | Some (ns, r') => Some (XElem tag ats kids :: ns, r')
                                  | None => None
                                  end
                                else None
                            | EmptyString => None
                            end
                          else None
                      | None => None
                      end
                  | None => None
                  end
            end
          else
            let (raw, rest) := split_at_char "<" s in
            match decode_text raw, parse_nodes f rest with
            | Some t, Some (ns, r) => Some (XText t :: ns, r)
            | _, _ => None
            end
      end
  end.

(** [doc.ReadFromString(s)] / [ReadFromBytes]: the whole input must be
    consumed (an unmatched end tag is an error). *)
Definition etree_read (s : string) : option (list xnode) :=
  match parse_nodes (S (String.length s)) s with
  | Some (ns, EmptyString) => Some ns
  | _ => None
  end.

(** [Element.ChildElements]: the element children, in order. *)
Definition child_elements (ks : list xnode) : list xnode :=
  filter (fun k => match k with XElem _ _ _ => true | _ => false end) ks.

(** [Document.Root]: the first element token of the document. *)
Definition doc_root (toks : list xnode) : option xnode :=
  hd_error (child_elements toks).

(** [FindElement("//w:body")]: the first [w:body] element in document
    order. *)
Fixpoint find_body_node (n : xnode) : option xnode :=
  match n with
  | XElem t a ks =>
      if String.eqb t "w:body" then Some n
      else (fix go (l : list xnode) : option xnode :=
              match l with
              | [] => None
              | k :: l' => match find_body_node k with
                           | Some b => Some b
                           | None => go l'
                           end
              end) ks
  | _ => None
  end.

Fixpoint find_body (toks : list xnode) : option xnode :=
  match toks with
  | [] => None
  | k :: l' => match find_body_node k with Some b => Some b | None => find_body l' end
  end.

(** Write [kids'] as the children of the element [find_body] returns
    (the in-place [body.AddChild] mutations of the Go code). *)
Fixpoint set_body_node (kids' : list xnode) (n : xnode) : option xnode :=
  match n with
  | XElem t a ks =>
      if String.eqb t "w:body" then Some (XElem t a kids')
      else match (fix go (l : list xnode) : option (list xnode) :=
                    match l with
                    | [] => None
                    | k :: l' => match set_body_node kids' k with
                                 | Some k' => Some (k' :: l')
                                 | None => match go l' with
                                           | Some l'' => Some (k :: l'')
                                           | None => None
                                           end
                                 end
                    end) ks with
           | Some ks' => Some (XElem t a ks')
           | None => None
           end
  | _ => None
  end.

Fixpoint set_body (kids' : list xnode) (toks : list xnode) : list xnode :=
  match toks with
  | [] => []
  | k :: l' => match set_body_node kids' k with
               | Some k' => k' :: l'
               | None => k :: set_body kids' l'
               end
  end.

(** [doc.Indent(2)] (etree): each element first drops its whitespace-only
    character data; then a newline and [2*depth] spaces go before every
    non-character-data child (except the first one at depth 0) and a newline
    with [2*(depth-1)] spaces after a last non-character-data child (at
    depth 0, [indent(-1)] is a bare newline). *)
Definition is_ws_text (n : xnode) : bool :=
  match n with
  | XText s => forallb is_ws (list_ascii_of_string s)
  | _ => false
  end.

Fixpoint spaces (n : nat) : string :=
  match n with O => EmptyString | S k => String " " (spaces k) end.

Definition indent_text (d : nat) : xnode := XText (String (chr 10) (spaces (2 * d))).

Definition is_text (n : xnode) : bool := match n with XText _ => true | _ => false end.

Fixpoint indent_node (d : nat) (n : xnode) {struct n} : xnode :=
  match n with
  | XElem t a ks =>
      let fix go (l : list xnode) (first : bool) : list xnode :=
        match l with
        | [] => []
        | k :: l' =>
            if is_ws_text k then go l' first
            else if is_text k then k :: go l' first
            else ((if negb first || Nat.ltb 0 d then [indent_text d] else [])
                  ++ indent_node (S d) k :: go l' false)%list
        end in
      let kept := filter (fun k => negb (is_ws_text k)) ks in
      match kept with
      | [] => XElem t a []
      | _ =>
          let last_text := match last kept (XText "") with XText _ => true | _ => false end in
          let some_elem := existsb (fun k => negb (is_text k)) kept in
          XElem t a (go ks true ++
                     (if negb last_text && (some_elem || Nat.ltb 0 d)
                      then [indent_text (pred d)]
                      else []))%list
      end
  | _ => n
  end.

Definition etree_indent (toks : list xnode) : list xnode :=
  match indent_node 0 (XElem "" [] toks) with
  | XElem _ _ ks => ks
  | _ => toks
  end.

(** [doc.WriteToBytes()]: character data and attribute values are written
    with the same escaping of [& < > ' ] and the double quote; an element
    without children is written [<t/>]; a processing instruction with
    empty data [<?t?>]. *)
Definition text_escape_char (c : ascii) : string :=
  if is_char c 38 then "&amp;" else if is_char c 60 then "&lt;"
  else if is_char c 62 then "&gt;" else if is_char c 39 then "&apos;"
  else if is_char c 34 then "&quot;" else str1 c.

Definition attr_escape_char (c : ascii) : string := text_escape_char c.

Definition escape_with (f : ascii -> string) (s : string) : string :=
  concat_str (map f (list_ascii_of_string s)).

Definition write_attr (a : string * string) : string :=
  " " ++ fst a ++ "=" ++ dq ++ escape_with attr_escape_char (snd a) ++ dq.

Fixpoint write_node (n : xnode) : string :=
  match n with
  | XElem t a [] => "<" ++ t ++ concat_str (map write_attr a) ++ "/>"
  | XElem t a ks =>
      "<" ++ t ++ concat_str (map write_attr a) ++ ">" ++
      concat_str (map write_node ks) ++ "</" ++ t ++ ">"
  | XText s => escape_with text_escape_char s
  | XComment s => "<!--" ++ s ++ "-->"
  | XProcInst t d =>
      if String.eqb d EmptyString then "<?" ++ t ++ "?>" else "<?" ++ t ++ " " ++ d ++ "?>"
  end.

Definition etree_write (toks : list xnode) : string := concat_str (map write_node toks).

(* ------------------------------------------------------------------ *)
(** ** [addComponentToBody] (unnamed part 012) *)

Definition xmlns (prefix uri : string) : string :=
  " xmlns:" ++ prefix ++ "=" ++ dq ++ uri ++ dq.

Definition temp_open : string :=
  "<temp" ++
  xmlns "w" "http://schemas.openxmlformats.org/wordprocessingml/2006/main" ++
  xmlns "mc" "http://schemas.openxmlformats.org/markup-compatibility/2006" ++
  xmlns "wp" "http://schemas.openxmlformats.org/drawingml/2006/wordprocessingDrawing" ++
  xmlns "wp14" "http://schemas.microsoft.com/office/word/2010/wordprocessingDrawing" ++
  xmlns "a" "http://schemas.openxmlformats.org/drawingml/2006/main" ++
  xmlns "wps" "http://schemas.microsoft.com/office/word/2010/wordprocessingShape" ++
  xmlns "a14" "http://schemas.microsoft.com/office/drawing/2010/main" ++
  xmlns "v" "urn:schemas-microsoft-com:vml" ++
  xmlns "w10" "urn:schemas-microsoft-com:office:word" ++
  xmlns "o" "urn:schemas-microsoft-com:office:office" ++ ">".

Definition wrap_component (rendered : string) : string :=
  temp_open ++ rendered ++ "</temp>".

(** The elements one component instance contributes: template lookup,
    rendering with the instance's whole [Props] map, parsing under the
    [<temp>] wrapper and the root's child elements ([Copy] is the identity
    on immutable trees). *)
Definition component_elements (components : list (string * string))
  (ci : ComponentInstance) : res (list xnode) :=
  match GetComponent components (Component ci) with
  | Err e => Err e
  | Ok template =>
      let renderedXML := RenderComponent template (Props ci) in
      match etree_read (wrap_component renderedXML) with
      | None => Err (RenderError "failed to parse rendered component XML")
      | Some toks =>
          match doc_root toks with
          | Some (XElem _ _ ks) => Ok (child_elements ks)
          | _ => Ok []
          end
      end
  end.

(** [addComponentToBody] on the current children of the body. *)
Definition addComponentToBody (components : list (string * string))
  (body_kids : list xnode) (ci : ComponentInstance) : res (list xnode) :=
  match component_elements components ci with
  | Err e => Err e
  | Ok els => Ok (body_kids ++ els)%list
  end.

(** The loop [for _, componentInstance := range plan.Body] of
    [AssembleDocument]. *)
Fixpoint add_components (components : list (string * string))
  (body_kids : list xnode) (cis : list ComponentInstance) : res (list xnode) :=
  match cis with
  | [] => Ok body_kids
  | ci :: cis' =>
      match addComponentToBody components body_kids ci with
      | Err e => Err (AddComponentError (Component ci) e)
      | Ok kids' => add_components components kids' cis'
      end
  end.

(* ------------------------------------------------------------------ *)
(** ** archive/zip: [zip.NewWriter], [Create], [Write], [Close]

    [Create(path)] uses the Deflate method, a zero modification time and a
    trailing data descriptor, so the local header carries zero CRC and
    sizes; [Close] writes the central directory and the end record.
    The compressed bytes come from compress/flate, a parameter here. *)

Definition byte_of_Z (z : Z) : ascii := chr (Z.to_nat (z mod 256)%Z).
Definition le16 (z : Z) : string :=
  String (byte_of_Z z) (str1 (byte_of_Z (z / 256)%Z)).
Definition le32 (z : Z) : string := le16 (z mod 65536)%Z ++ le16 (z / 65536)%Z.
Definition zlen (s : string) : Z := Z.of_nat (String.length s).

Fixpoint crc_rounds (k : nat) (c : Z) : Z :=
  match k with
  | O => c
  | S k' => crc_rounds k' (if Z.odd c then Z.lxor (Z.shiftr c 1) 3988292384%Z
                           else Z.shiftr c 1)
  end.

(** IEEE CRC-32 (reflected polynomial 0xEDB88320). *)
Definition crc32 (s : string) : Z :=
  Z.lxor (fold_left (fun c b => crc_rounds 8 (Z.lxor c (Z.of_nat (nat_of_ascii b))))
                    (list_ascii_of_string s) 4294967295%Z) 4294967295%Z.

Definition sig (a b : nat) : string := "PK" ++ String (chr a) (str1 (chr b)).

Definition local_header (name : string) : string :=
  sig 3 4 ++ le16 20 ++ le16 8 ++ le16 8 ++ le16 0 ++ le16 0 ++
  le32 0 ++ le32 0 ++ le32 0 ++ le16 (zlen name) ++ le16 0 ++ name.

Definition data_descriptor (crc csize usize : Z) : string :=
  sig 7 8 ++ le32 crc ++ le32 csize ++ le32 usize.

Definition central_header (name : string) (crc csize usize offset : Z) : string :=
  sig 1 2 ++ le16 20 ++ le16 20 ++ le16 8 ++ le16 8 ++ le16 0 ++ le16 0 ++
  le32 crc ++ le32 csize ++ le32 usize ++ le16 (zlen name) ++ le16 0 ++
  le16 0 ++ le16 0 ++ le16 0 ++ le32 0 ++ le32 offset ++ name.

Definition end_record (n dirsize diroff : Z) : string :=
  sig 5 6 ++ le16 0 ++ le16 0 ++ le16 n ++ le16 n ++ le32 dirsize ++
  le32 diroff ++ le16 0.

Section Zip.
Variable deflate : string -> string.

Fixpoint zip_entries (off : Z) (es : list (string * string)) : string * list string :=
  match es with
  | [] => (EmptyString, [])
  | (name, content) :: es' =>
      let data := deflate content in
      let crc := crc32 content in
      let local := local_header name ++ data ++
                   data_descriptor crc (zlen data) (zlen content) in
      let central := central_header name crc (zlen data) (zlen content) off in
      let (rest, cs) := zip_entries (off + zlen local)%Z es' in
      (local ++ rest, central :: cs)
  end.

(** The bytes of the archive whose entries are written in the order [es]. *)
Definition zip_write (es : list (string * string)) : string :=
  let (locals, cs) := zip_entries 0%Z es in
  let dir := concat_str cs in
  locals ++ dir ++ end_record (Z.of_nat (length es)) (zlen dir) (zlen locals).

End Zip.

(* ------------------------------------------------------------------ *)
(** ** Byte buffers, the request state and its monad

    The byte slices of the shell package live in a heap of buffers; a Go
    [InMemoryDocx] maps each path to the buffer holding its bytes.
    [make([]byte, n)] allocates the buffer [next_ptr]. *)

Record St := mkSt { heap : list (nat * string); next_ptr : nat }.

Fixpoint heap_get (h : list (nat * string)) (p : nat) : option string :=
  match h with
  | [] => None
  | (q, s) :: h' => if Nat.eqb p q then Some s else heap_get h' p
  end.

Definition M (A : Type) := St -> res A * St.

Definition ret {A} (a : A) : M A := fun st => (Ok a, st).
Definition fail {A} (e : docgen_error) : M A := fun st => (Err e, st).
Definition bind {A B} (m : M A) (k : A -> M B) : M B :=
  fun st => match m st with
            | (Ok a, st') => k a st'
            | (Err e, st') => (Err e, st')
            end.

Notation "x <- m ;; k" := (bind m (fun x => k))
  (at level 61, m at next level, right associativity).

(** Reading a slice; a path whose buffer is absent reads as the nil slice. *)
Definition read_buf (p : nat) : M string :=
  fun st => (Ok (match heap_get (heap st) p with Some s => s | None => EmptyString end), st).

(** [make([]byte, len(content)); copy(...)]: a fresh buffer. *)
Definition alloc (s : string) : M nat :=
  fun st => (Ok (next_ptr st), mkSt ((next_ptr st, s) :: heap st) (S (next_ptr st))).

Definition InMemoryDocx := list (string * nat).

Record Engine := mkEngine {
  shell : InMemoryDocx;
  components : list (string * string)
}.

(** [Clone]: a new map whose every entry is a fresh copy of the bytes. *)
Fixpoint clone_entries (es : InMemoryDocx) (acc : InMemoryDocx) : M InMemoryDocx :=
  match es with
  | [] => ret acc
  | (path, p) :: es' =>
      content <- read_buf p ;;
      q <- alloc content ;;
      clone_entries es' (map_insert path q acc)
  end.

Definition Clone (shell : InMemoryDocx) : M InMemoryDocx := clone_entries shell [].

Section Assemble.
Variable deflate : string -> string.

(** [ToBytes]: [ord] is the order in which [range shell] visits the keys. *)
Fixpoint read_entries (m : InMemoryDocx) (ord : list string) : M (list (string * string)) :=
  match ord with
  | [] => ret []
  | path :: ord' =>
      content <- read_buf (match lookup path m with Some p => p | None => 0 end) ;;
      rest <- read_entries m ord' ;;
      ret ((path, content) :: rest)
  end.

Definition ToBytes (m : InMemoryDocx) (ord : list string) : M string :=
  es <- read_entries m ord ;;
  ret (zip_write deflate es).

(** The tree part of [AssembleDocument]: parse [word/document.xml], find
    the body, add every component of [plan.Body] in order, giving the
    modified document.  A failure of the loop is [NewDocGenError("assembly",
    ...)] around the loop's [failed to add component %s: %w] error
    ([AddComponentError]); the parser's own error text is not modelled. *)
Definition assemble_tree (comps : list (string * string)) (documentXML : string)
  (plan : DocumentPlan) : res (list xnode) :=
  match etree_read documentXML with
  | None => Err (AssemblyError "failed to parse document.xml")
  | Some doc =>
      match find_body doc with
      | Some (XElem _ _ kids) =>
          match add_components comps kids (Body plan) with
          | Err er => Err (AssemblyWrapped er)
          | Ok kids' => Ok (set_body kids' doc)
          end
      | _ => Err (AssemblyError "w:body element not found in document.xml")
      end
  end.

(** [AssembleDocument] ([Engine.Assemble] calls it directly); [ord] is the
    iteration order of the final [range] in [ToBytes]. *)
Definition AssembleDocument (e : Engine) (plan : DocumentPlan) (ord : list string)
  : M string :=
  workingDoc <- Clone (shell e) ;;
  match lookup "word/document.xml" workingDoc with
  | None => fail (AssemblyError "word/document.xml not found in shell document")
  | Some p =>
      documentXML <- read_buf p ;;
      match assemble_tree (components e) documentXML plan with
      | Err er => fail er
      | Ok doc' =>
          let modifiedXML := etree_write (etree_indent doc') in
          q <- alloc modifiedXML ;;
          ToBytes (map_insert "word/document.xml" q workingDoc) ord
      end
  end.

End Assemble.

(* ------------------------------------------------------------------ *)
(** ** [Validator.Validate] with the rule set [assets/schemas/rules.cue]

    [Validate] encodes the plan, unifies it with [#DocumentPlan] and checks
    the result with [cue.Concrete(true)]; [Valid] is [true] iff that
    succeeds.  Here the unification is spelled out for the rules of
    [rules.cue]: [#DocumentPlan] and [#ComponentInstance] are definitions,
    hence closed structs; [props: {...}] and [doc_props: {...}] are open; a
    regular field [f: string & !=""] absent from the plan stays incomplete
    and fails the concreteness check, an optional field [f?: string] may be
    absent; [body: [...#ComponentInstance]] is an open list, concrete
    (empty) when absent.  The regular expressions use RE2's ASCII [\d]. *)

Definition AllComponentNames : list string :=
  ["DocumentCategoryTitle"; "DocumentTitle"; "DocumentSubject"; "TestBlock";
   "AuthorBlock"].

Definition is_upper (c : ascii) : bool :=
  let n := nat_of_ascii c in Nat.leb 65 n && Nat.leb n 90.

Fixpoint count_digits (s : string) : nat * string :=
  match s with
  | String c s' => if is_digit c then let (n, r) := count_digits s' in (S n, r)
                   else (0, s)
  | EmptyString => (0, EmptyString)
  end.

Definition drop_prefix (p s : string) : option string :=
  if String.prefix p s then Some (substring (String.length p) (String.length s) s)
  else None.

(** [=~"^DOC-\\d{4,}, Rev [A-Z]$"] *)
Definition subject_ok (s : string) : bool :=
  match drop_prefix "DOC-" s with
  | None => false
  | Some r =>
      let (n, r1) := count_digits r in
      Nat.leb 4 n &&
      match drop_prefix ", Rev " r1 with
      | Some (String c EmptyString) => is_upper c
      | _ => false
      end
  end.

(** [=~"^\\d{1,2}/\\d{1,2}/\\d{4}$"] *)
Definition date_ok (s : string) : bool :=
  let (a, r1) := count_digits s in
  (Nat.leb 1 a && Nat.leb a 2) &&
  match r1 with
  | String sl1 r2 =>
      is_char sl1 47 &&
      let (b, r3) := count_digits r2 in
      (Nat.leb 1 b && Nat.leb b 2) &&
      match r3 with
      | String sl2 r4 =>
          is_char sl2 47 &&
          let (c, r5) := count_digits r4 in
          Nat.eqb c 4 && String.eqb r5 EmptyString
      | EmptyString => false
      end
  | EmptyString => false
  end.

Definition field (k : string) (m : list (string * value)) : option value := lookup k m.

(** [k: string & !=""] *)
Definition req_nonempty (m : list (string * value)) (k : string) : bool :=
  match field k m with Some (VStr s) => negb (String.eqb s EmptyString) | _ => false end.

(** [k: string] *)
Definition req_string (m : list (string * value)) (k : string) : bool :=
  match field k m with Some (VStr _) => true | _ => false end.

(** [k?: string] *)
Definition opt_string (m : list (string * value)) (k : string) : bool :=
  match field k m with None => true | Some (VStr _) => true | Some _ => false end.

Definition req_match (m : list (string * value)) (k : string) (f : string -> bool) : bool :=
  match field k m with Some (VStr s) => f s | _ => false end.

(** The [if component == ...] blocks of [#ComponentInstance]. *)
Definition props_ok (name : string) (m : list (string * value)) : bool :=
  if String.eqb name "DocumentCategoryTitle" then req_nonempty m "category_title"
  else if String.eqb name "DocumentTitle" then req_nonempty m "document_title"
  else if String.eqb name "DocumentSubject" then req_match m "document_subject" subject_ok
  else if String.eqb name "TestBlock" then
    req_nonempty m "tester_name" && req_match m "test_date" date_ok &&
    req_nonempty m "serial_number" &&
    req_match m "test_result"
      (fun s => String.eqb s "PASS" || String.eqb s "FAIL" || String.eqb s "INCOMPLETE") &&
    req_string m "additional_info"
  else if String.eqb name "AuthorBlock" then
    req_nonempty m "author_name" && req_nonempty m "company_name" &&
    req_nonempty m "address_line1" && opt_string m "address_line2" &&
    req_nonempty m "city_state_zip" && req_nonempty m "phone" &&
    opt_string m "fax" && req_nonempty m "website"
  else true.

Definition keys_within (allowed : list string) (m : list (string * value)) : bool :=
  forallb (fun kv => existsb (String.eqb (fst kv)) allowed) m.

(** [#ComponentInstance] *)
Definition instance_ok (v : value) : bool :=
  match v with
  | VObj m =>
      keys_within ["component"; "props"] m &&
      match field "component" m with
      | Some (VStr name) =>
          existsb (String.eqb name) AllComponentNames &&
          match field "props" m with
          | None => props_ok name []
          | Some (VObj p) => props_ok name p
          | Some _ => false
          end
      | _ => false
      end
  | _ => false
  end.

(** [#DocumentPlan] *)
Definition Validate (plan : value) : bool :=
  match plan with
  | VObj m =>
      keys_within ["doc_props"; "body"] m &&
      match field "doc_props" m with
      | None => true
      | Some (VObj d) => opt_string d "filename"
      | Some _ => false
      end &&
      match field "body" m with
      | None => true
      | Some (VList l) => forallb instance_ok l
      | Some _ => false
      end
  | _ => false
  end.

(* ------------------------------------------------------------------ *)
(** ** Well-formed XML fragments

    A streaming check of XML 1.0 well-formedness for a fragment (the
    content of an element: character data and balanced elements), over
    ASCII.  It is stricter than XML: it accepts only the legal ASCII
    characters (tab, LF, CR, 0x20-0x7F), no comments, CDATA sections or
    processing instructions, no raw [>] in character data, and as
    references only the five predefined entities and decimal character
    references to legal characters.  Every fragment it accepts is
    well-formed; attribute names must be unique in a tag and end tags must
    match start tags. *)

Definition xml_legal (c : ascii) : bool :=
  let n := nat_of_ascii c in
  Nat.eqb n 9 || Nat.eqb n 10 || Nat.eqb n 13 || (Nat.leb 32 n && Nat.leb n 127).

Definition ref_ok (acc : string) : bool :=
  existsb (String.eqb acc) ["amp"; "lt"; "gt"; "quot"; "apos"] ||
  match acc with
  | String h (String d ds) =>
      is_char h 35 &&
      match dec_value 0 (String d ds) with
      | Some n => xml_legal (chr n) && Nat.ltb n 128
      | None => false
      end
  | _ => false
  end.

Inductive wmode :=
| WText
| WLt
| WSName (acc : string)
| WInTag (name : string) (seen : list string)
| WAName (name : string) (seen : list string) (acc : string)
| WAEq (name : string) (seen : list string) (an : string)
| WAQ (name : string) (seen : list string)
| WAVal (name : string) (seen : list string) (q : ascii)
| WAfterVal (name : string) (seen : list string)
| WSlash
| WEName (acc : string)
| WEWs (name : string)
| WRef (back : wmode) (acc : string).

Definition wstate := (wmode * list string)%type.

Definition snoc (s : string) (c : ascii) : string := s ++ str1 c.

Definition pop (name : string) (stk : list string) : option wstate :=
  match stk with
  | top :: stk' => if String.eqb top name then Some (WText, stk') else None
  | [] => None
  end.

Definition wstep (st : wstate) (c : ascii) : option wstate :=
  let (m, stk) := st in
  match m with
  | WText =>
      if is_char c 60 then Some (WLt, stk)
      else if is_char c 38 then Some (WRef WText EmptyString, stk)
      else if is_char c 62 then None
      else if xml_legal c then Some (WText, stk) else None
  | WLt =>
      if is_char c 47 then Some (WEName EmptyString, stk)
      else if is_name_start c then Some (WSName (str1 c), stk) else None
  | WSName acc =>
      if is_name_char c then Some (WSName (snoc acc c), stk)
      else if is_ws c then Some (WInTag acc [], stk)
      else if is_char c 62 then Some (WText, acc :: stk)
      else if is_char c 47 then Some (WSlash, stk) else None
  | WInTag name seen =>
      if is_ws c then Some (WInTag name seen, stk)
      else if is_char c 62 then Some (WText, name :: stk)
      else if is_char c 47 then Some (WSlash, stk)
      else if is_name_start c then Some (WAName name seen (str1 c), stk) else None
  | WAName name seen acc =>
      if is_name_char c then Some (WAName name seen (snoc acc c), stk)
      else if is_ws c then Some (WAEq name seen acc, stk)
      else if is_char c 61 then
        (if existsb (String.eqb acc) seen then None else Some (WAQ name (acc :: seen), stk))
      else None
  | WAEq name seen an =>
      if is_ws c then Some (WAEq name seen an, stk)
      else if is_char c 61 then
        (if existsb (String.eqb an) seen then None else Some (WAQ name (an :: seen), stk))
      else None
  | WAQ name seen =>
      if is_ws c then Some (WAQ name seen, stk)
      else if is_char c 34 || is_char c 39 then Some (WAVal name seen c, stk) else None
  | WAVal name seen q =>
      if Ascii.eqb c q then Some (WAfterVal name seen, stk)
      else if is_char c 60 then None
      else if is_char c 38 then Some (WRef (WAVal name seen q) EmptyString, stk)
      else if xml_legal c then Some (WAVal name seen q, stk) else None
  | WAfterVal name seen =>
      if is_ws c then Some (WInTag name seen, stk)
      else if is_char c 62 then Some (WText, name :: stk)
      else if is_char c 47 then Some (WSlash, stk) else None
  | WSlash => if is_char c 62 then Some (WText, stk) else None
  | WEName acc =>
      if is_name_char c then Some (WEName (snoc acc c), stk)
      else if String.eqb acc EmptyString then None
      else if is_ws c then Some (WEWs acc, stk)
      else if is_char c 62 then pop acc stk else None
  | WEWs name =>
      if is_ws c then Some (WEWs name, stk)
      else if is_char c 62 then pop name stk else None
  | WRef back acc =>
      if is_char c 59 then (if ref_ok acc then Some (back, stk) else None)
      else if is_letter c || is_digit c || is_char c 35 then Some (WRef back (snoc acc c), stk)
      else None
  end.

Fixpoint wrun (st : wstate) (s : string) : option wstate :=
  match s with
  | EmptyString => Some st
  | String c s' => match wstep st c with Some st' => wrun st' s' | None => None end
  end.

Definition wf_fragment (s : string) : bool :=
  match wrun (WText, []) s with
  | Some (WText, []) => true
  | _ => false
  end.

(** Characters that stay character data inside text and inside attribute
    values with either quote: legal, and none of [< > &] or a quote. *)
Definition plain_char (c : ascii) : bool :=
  xml_legal c && negb (is_char c 60) && negb (is_char c 62) && negb (is_char c 38)
  && negb (is_char c 34) && negb (is_char c 39).

Definition all_chars (f : ascii -> bool) (s : string) : bool :=
  forallb f (list_ascii_of_string s).

(* ------------------------------------------------------------------ *)
(** ** Templates as text and placeholder-like segments

    A segment is either literal text without [{], or a brace pair
    [{{] + [l] spaces + a key + [r] spaces + [}}] around a key without
    braces whose first and last characters are not spaces. *)

Inductive seg :=
| Lit (s : string)
| Hole (l : nat) (k : string) (r : nat).

Definition seg_text (sg : seg) : string :=
  match sg with
  | Lit s => s
  | Hole l k r => "{{" ++ spaces l ++ k ++ spaces r ++ "}}"
  end.

Definition template_of (segs : list seg) : string := concat_str (map seg_text segs).

Definition not_brace (c : ascii) : bool := negb (is_char c 123) && negb (is_char c 125).
Definition brace_free (s : string) : bool := all_chars not_brace s.
Definition no_open_brace (s : string) : bool := all_chars (fun c => negb (is_char c 123)) s.

Definition hole_key_ok (k : string) : bool :=
  brace_free k &&
  match list_ascii_of_string k with
  | [] => false
  | c :: _ => negb (is_char c 32) &&
              negb (is_char (last (list_ascii_of_string k) c) 32)
  end.

Definition seg_ok (sg : seg) : bool :=
  match sg with
  | Lit s => no_open_brace s
  | Hole _ k _ => hole_key_ok k
  end.

(** What the rendered template has in place of a segment, read off the
    segment alone: a brace pair with at least one space on each side whose
    inner text (key with the extra spaces) is a key of [props] becomes the
    escaped [%v] of the first such entry, everything else stays. *)
Definition seg_out (props : list (string * value)) (sg : seg) : string :=
  match sg with
  | Lit s => s
  | Hole (S l') k (S r') =>
      match lookup (spaces l' ++ k ++ spaces r') props with
      | Some v => html_escape (sprint_v v)
      | None => seg_text sg
      end
  | Hole _ _ _ => seg_text sg
  end.

(** Modes of the checker in which a character that is neither markup nor a
    quote is plain data: text, and an attribute value opened by a quote.
    [inv_mode] is the invariant of the states reached from [(WText, [])]:
    attribute values are always delimited by a quote. *)
Definition quote_ok (q : ascii) : bool := is_char q 34 || is_char q 39.

Fixpoint inv_mode (m : wmode) : bool :=
  match m with
  | WAVal _ _ q => quote_ok q
  | WRef back _ => inv_mode back
  | _ => true
  end.

Definition text_like (m : wmode) : bool :=
  match m with
  | WText => true
  | WAVal _ _ q => quote_ok q
  | _ => false
  end.

(** Induction over documents, with a statement for the nodes and one for
    the lists of children. *)
Section XnodeInd.
Variables (Pn : xnode -> Prop) (Ql : list xnode -> Prop).
Hypotheses
  (HE : forall t a ks, Ql ks -> Pn (XElem t a ks))
  (HT : forall s, Pn (XText s))
  (HC : forall s, Pn (XComment s))
  (HPI : forall t d, Pn (XProcInst t d))
  (HN : Ql [])
  (HK : forall k ks, Pn k -> Ql ks -> Ql (k :: ks)).

Fixpoint xnode_ind2 (n : xnode) : Pn n :=
  match n with
  | XElem t a ks =>
      HE t a ks ((fix go (l : list xnode) : Ql l :=
                    match l with
                    | [] => HN
                    | k :: l' => HK k l' (xnode_ind2 k) (go l')
                    end) ks)
  | XText s => HT s
  | XComment s => HC s
  | XProcInst t d => HPI t d
  end.

End XnodeInd.

(** The loop over the children inside [set_body_node]. *)
Definition set_body_list (f : xnode -> option xnode) : list xnode -> option (list xnode) :=
  fix go (l : list xnode) : option (list xnode) :=
    match l with
    | [] => None
    | k :: l' => match f k with
                 | Some k' => Some (k' :: l')
                 | None => match go l' with
                           | Some l'' => Some (k :: l'')
                           | None => None
                           end
                 end
    end.

(** What replacing the children of the body does to a node and to a list
    of nodes: nothing where no body is found, and the body found afterwards
    is the old one with the new children. *)
Definition set_find_node (kids' : list xnode) (n : xnode) : Prop :=
  (find_body_node n = None -> set_body_node kids' n = None) /\
  (forall t a ks, find_body_node n = Some (XElem t a ks) ->
   exists n', set_body_node kids' n = Some n' /\ find_body_node n' = Some (XElem t a kids')).

Definition set_find_list (kids' : list xnode) (l : list xnode) : Prop :=
  (find_body l = None -> set_body_list (set_body_node kids') l = None) /\
  (forall t a ks, find_body l = Some (XElem t a ks) ->
   exists l', set_body_list (set_body_node kids') l = Some l' /\
              find_body l' = Some (XElem t a kids')).

(** A computation in [M] only adds buffers: the allocation counter does not
    go back and every buffer below it keeps its bytes. *)
Definition frame_ok {A} (m : M A) : Prop :=
  forall st, next_ptr st <= next_ptr (snd (m st)) /\
             forall p, p < next_ptr st -> heap_get (heap (snd (m st))) p = heap_get (heap st) p.

(* ------------------------------------------------------------------ *)
(** ** Sample inputs

    A shell whose body holds a section-properties element, component
    libraries, plans and their JSON form as the validator receives it. *)

Definition shell_document_xml : string :=
  "<w:document><w:body><w:sectPr/></w:body></w:document>".

Definition content_types_xml : string := "<Types/>".

Definition title_template : string :=
  "<w:p><w:r><w:t>{{ document_title }}</w:t></w:r></w:p>".

Definition sample_engine : Engine :=
  mkEngine [("[Content_Types].xml", 0); ("word/document.xml", 1)]
           [("DocumentTitle", title_template)].

(** The canonical shell loaded in buffers 0 and 1. *)
Definition sample_state : St :=
  mkSt [(1, shell_document_xml); (0, content_types_xml)] 2.

Definition title_instance : ComponentInstance :=
  {| Component := "DocumentTitle"; Props := [("document_title", VStr "T")] |}.

Definition title_plan : DocumentPlan :=
  {| Filename := "t.docx"; Body := [title_instance] |}.

Definition title_plan_json : value :=
  VObj [("body", VList [VObj [("component", VStr "DocumentTitle");
                              ("props", VObj [("document_title", VStr "T")])]])].

(** A parent whose [children] names a component the library lacks. *)
Definition parent_library : list (string * string) :=
  [("Parent", "<w:p><w:t>{{ title }}</w:t></w:p>")].

Definition missing_child : value :=
  VObj [("component", VStr "Missing"); ("props", VObj [])].

Definition parent_plan : DocumentPlan :=
  {| Filename := "p.docx";
     Body := [{| Component := "Parent";
                 Props := [("title", VStr "T"); ("children", VList [missing_child])] |}] |}.

Definition leaf_library : list (string * string) :=
  [("A", "<w:p><w:t>A</w:t></w:p>"); ("B", "<w:p><w:t>B</w:t></w:p><w:p/>");
   ("C", "<w:tbl/>")].

Definition leaf (name : string) : ComponentInstance :=
  {| Component := name; Props := [] |}.

Definition leaf_plan : DocumentPlan :=
  {| Filename := "abc.docx"; Body := [leaf "A"; leaf "B"; leaf "C"] |}.

(** The plan of the validator test [MissingDocumentTitle], and a plan with
    two titles. *)
Definition subject_only_plan_json : value :=
  VObj [("body", VList [VObj [("component", VStr "DocumentSubject");
                              ("props", VObj [("document_subject", VStr "DOC-1234, Rev A")])]])].

Definition two_titles_plan_json : value :=
  VObj [("body", VList [VObj [("component", VStr "DocumentTitle");
                              ("props", VObj [("document_title", VStr "A")])];
                        VObj [("component", VStr "DocumentTitle");
                              ("props", VObj [("document_title", VStr "B")])]])].

(** A title whose [children] holds an instance of an unknown component. *)
Definition nested_unknown_plan_json : value :=
  VObj [("body", VList [VObj [("component", VStr "DocumentTitle");
                              ("props", VObj [("document_title", VStr "T");
                                              ("children", VList [VObj [("component", VStr "Bogus");
                                                                        ("props", VObj [])]])])]])].

(* ------------------------------------------------------------------ *)
(** ** [LoadComponents] (unnamed part 009)

    [filepath.Walk] calls the walk function once per visited path, in
    lexical order; an event records what that call sees: whether Walk
    passes an error, the base name [info.Name()], [info.IsDir()], and the
    outcome of [readComponentFile] on that path ([None]: an error).  A
    returned error stops the walk and [LoadComponents] fails ([None]). *)

Record walk_event := mkEvent {
  ev_err : bool;
  ev_name : string;
  ev_is_dir : bool;
  ev_read : option string
}.

(** [strings.HasSuffix] and [strings.TrimSuffix]. *)
Definition has_suffix (suf s : string) : bool :=
  Nat.leb (String.length suf) (String.length s) &&
  String.eqb (substring (String.length s - String.length suf) (String.length suf) s) suf.

Definition trim_suffix (suf s : string) : string :=
  if has_suffix suf s then substring 0 (String.length s - String.length suf) s else s.

Definition component_ext : string := ".component.xml".

Fixpoint load_walk (evs : list walk_event) (components : list (string * string))
  : option (list (string * string)) :=
  match evs with
  | [] => Some components
  | ev :: evs' =>
      if ev_err ev then None
      else if negb (ev_is_dir ev) && has_suffix component_ext (ev_name ev) then
        let componentName := trim_suffix component_ext (ev_name ev) in
        match ev_read ev with
        | None => None
        | Some content => load_walk evs' (map_insert componentName content components)
        end
      else load_walk evs' components
  end.

Definition LoadComponents (evs : list walk_event) : option (list (string * string)) :=
  load_walk evs [].

(* ------------------------------------------------------------------ *)
(** ** [extractPath] (internal/validator/validator.go)

    [strings.Fields] splits around runs of [unicode.IsSpace] runes: the
    ASCII spaces (tab, LF, VT, FF, CR, space) and, in UTF-8, U+0085,
    U+00A0, U+1680, U+2000-U+200A, U+2028, U+2029, U+202F, U+205F and
    U+3000.  The lead byte of these encodings is never a continuation byte,
    so the UTF-8 decoder always starts a rune there: on any byte string a
    space rune is exactly an occurrence of one of these byte sequences
    starting at a position the scan reaches. *)

Definition u2 (a b : nat) : string := String (chr a) (str1 (chr b)).
Definition u3 (a b c : nat) : string := String (chr a) (u2 b c).

Definition uspace_seqs : list string :=
  [u2 194 133; u2 194 160; u3 225 154 128] ++
  map (fun k => u3 226 128 (128 + k)) (seq 0 11) ++
  [u3 226 128 168; u3 226 128 169; u3 226 128 175; u3 226 129 159; u3 227 128 128].

Definition ascii_space (c : ascii) : bool :=
  is_char c 9 || is_char c 10 || is_char c 11 || is_char c 12 || is_char c 13 ||
  is_char c 32.

(** The byte length of the space rune starting [s], 0 if none does. *)
Definition space_len (s : string) : nat :=
  match s with
  | EmptyString => 0
  | String c _ =>
      if ascii_space c then 1
      else match find (fun p => String.prefix p s) uspace_seqs with
           | Some p => String.length p
           | None => 0
           end
  end.

(** [cur] is the field being read; [skip] counts the bytes of a space rune
    still to be passed. *)
Fixpoint fields_from (s : string) (skip : nat) (cur : string) : list string :=
  match s with
  | EmptyString => if String.eqb cur EmptyString then [] else [cur]
  | String c s' =>
      match skip with
      | S k => fields_from s' k cur
      | O =>
          match space_len s with
          | O => fields_from s' 0 (snoc cur c)
          | S k => ((if String.eqb cur EmptyString then [] else [cur]) ++
                    fields_from s' k EmptyString)%list
          end
      end
  end.

Definition fields (s : string) : list string := fields_from s 0 EmptyString.

(** [strings.Trim(part, "():,;")]: an ASCII cut set, trimmed byte-wise,
    first on the left, then on the right. *)
Definition in_cutset (c : ascii) : bool :=
  is_char c 40 || is_char c 41 || is_char c 58 || is_char c 44 || is_char c 59.

Fixpoint trim_left (s : string) : string :=
  match s with
  | String c s' => if in_cutset c then trim_left s' else s
  | EmptyString => EmptyString
  end.

Fixpoint trim_right (s : string) : string :=
  match s with
  | EmptyString => EmptyString
  | String c s' =>
      let r := trim_right s' in
      if String.eqb r EmptyString && in_cutset c then EmptyString else String c r
  end.

Definition trim_cut (s : string) : string := trim_right (trim_left s).

(** One of the two loops of [extractPath]: the first field passing [ok]
    whose cleaned form is longer than one byte. *)
Fixpoint first_cleaned (ok : string -> bool) (parts : list string) : option string :=
  match parts with
  | [] => None
  | part :: parts' =>
      if ok part then
        let cleaned := trim_cut part in
        if Nat.ltb 1 (String.length cleaned) then Some cleaned
        else first_cleaned ok parts'
      else first_cleaned ok parts'
  end.

(** [extractPath] on the text [err.Error()]. *)
Definition extractPath (msg : string) : string :=
  match (if contains_char "." msg then
           first_cleaned (fun part => contains_char "." part &&
                                      negb (contains_char " " part)) (fields msg)
         else None) with
  | Some p => p
  | None =>
      match (if contains_char "[" msg && contains_char "]" msg then
               first_cleaned (fun part => contains_char "[" part &&
                                          contains_char "]" part) (fields msg)
             else None) with
      | Some p => p
      | None => "root"
      end
  end.

(* ------------------------------------------------------------------ *)
(** ** The download file name of [GenerateHandler] (internal/api/handlers.go)

    [strings.HasSuffix(strings.ToLower(filename), ".docx")]: [ToLower]
    maps every rune to one rune, and the only runes it maps to [.], [d],
    [o], [c] or [x] are these characters and their ASCII capitals, each a
    single byte that the decoder reads as a rune of its own; the test is
    therefore the byte-wise test on the ASCII lower case. *)

Definition lower_ascii (c : ascii) : ascii :=
  if is_upper c then chr (nat_of_ascii c + 32) else c.

Fixpoint lower_str (s : string) : string :=
  match s with
  | EmptyString => EmptyString
  | String c s' => String (lower_ascii c) (lower_str s')
  end.

Definition has_docx_suffix (filename : string) : bool :=
  has_suffix ".docx" (lower_str filename).

Definition response_filename (docprops_filename : string) : string :=
  let filename := if String.eqb docprops_filename EmptyString
                  then "generated_document.docx" else docprops_filename in
  if has_docx_suffix filename then filename else filename ++ ".docx".

(** The props each [if component == ...] block of [#ComponentInstance]
    constrains. *)
Definition declared_props (name : string) : list string :=
  if String.eqb name "DocumentCategoryTitle" then ["category_title"]
  else if String.eqb name "DocumentTitle" then ["document_title"]
  else if String.eqb name "DocumentSubject" then ["document_subject"]
  else if String.eqb name "TestBlock" then
    ["tester_name"; "test_date"; "serial_number"; "test_result"; "additional_info"]
  else if String.eqb name "AuthorBlock" then
    ["author_name"; "company_name"; "address_line1"; "address_line2";
     "city_state_zip"; "phone"; "fax"; "website"]
  else [].


(** A visited regular file named [name.component.xml]. *)
Definition component_file_for (name : string) (e : walk_event) : Prop :=
  ev_is_dir e = false /\ ev_name e = name ++ component_ext.

(** Where the binding of [name] after a walk over [evs] from the map [acc]
    comes from: the last file named [name.component.xml] of the walk, or
    [acc] when the walk has none. *)
Definition load_origin (name : string) (evs : list walk_event)
  (acc : list (string * string)) (c : string) : Prop :=
  (exists pre ev post, evs = (pre ++ ev :: post)%list /\ component_file_for name ev /\
                       ev_read ev = Some c /\
                       Forall (fun e => ~ component_file_for name e) post) \/
  (Forall (fun e => ~ component_file_for name e) evs /\ lookup name acc = Some c).

(** A component directory holding two [Title.component.xml] files in
    different subdirectories, in walk order, and a file that is not a
    component. *)
Definition sample_walk : list walk_event :=
  [mkEvent false "components" true None;
   mkEvent false "Title.component.xml" false (Some "<w:p>1</w:p>");
   mkEvent false "README.md" false (Some "notes");
   mkEvent false "Title.component.xml" false (Some "<w:p>2</w:p>")].

(* ================================================================== *)
(** * Proofs *)

(** ** Strings *)

Lemma str_app_assoc (a b c : string) : (a ++ b) ++ c = a ++ (b ++ c).
Proof. induction a as [|x a IH]; simpl; [reflexivity | now rewrite IH]. Qed.

Lemma str_app_nil_r (a : string) : a ++ EmptyString = a.
Proof. induction a as [|x a IH]; simpl; [reflexivity | now rewrite IH]. Qed.

Lemma lao_app (a b : string) :
  list_ascii_of_string (a ++ b) = (list_ascii_of_string a ++ list_ascii_of_string b)%list.
Proof. induction a as [|x a IH]; simpl; [reflexivity | now rewrite IH]. Qed.

Lemma lao_inj (a b : string) : list_ascii_of_string a = list_ascii_of_string b -> a = b.
Proof.
  intro H. rewrite <- (string_of_list_ascii_of_string a), <- (string_of_list_ascii_of_string b).
  now rewrite H.
Qed.

Lemma prefix_app (a t : string) : String.prefix a (a ++ t) = true.
Proof.
  induction a as [|x a IH]; simpl; [now destruct t|].
  destruct (ascii_dec x x) as [_|n]; [exact IH | now elim n].
Qed.

Lemma prefix_split (a s : string) : String.prefix a s = true -> exists t, s = a ++ t.
Proof.
  revert s; induction a as [|x a IH]; intros s H; simpl.
  - now exists s.
  - destruct s as [|y s]; simpl in H; [discriminate|].
    destruct (ascii_dec x y) as [<-|]; [|discriminate].
    destruct (IH s H) as [t ->]. now exists t.
Qed.

Lemma all_chars_app (f : ascii -> bool) (a b : string) :
  all_chars f (a ++ b) = all_chars f a && all_chars f b.
Proof. unfold all_chars. now rewrite lao_app, forallb_app. Qed.

Lemma spaces_S_r (n : nat) : spaces (S n) = spaces n ++ " ".
Proof. induction n as [|n IH]; simpl; [reflexivity|]. simpl in IH. now rewrite IH. Qed.

Lemma brace_free_spaces (n : nat) : brace_free (spaces n) = true.
Proof. induction n as [|n IH]; [reflexivity|]. exact IH. Qed.

Lemma brace_free_no_open (s : string) : brace_free s = true -> no_open_brace s = true.
Proof.
  unfold brace_free, no_open_brace, all_chars. rewrite !forallb_forall.
  intros H c Hc. specialize (H c Hc). unfold not_brace in H.
  now apply andb_prop in H as [H _].
Qed.

Lemma not_open_brace (c : ascii) : negb (is_char c 123) = true -> c <> "{"%char.
Proof. intros H ->. discriminate H. Qed.

(** ** The replacer *)

Lemma prefix_cons (a b : ascii) (s1 s2 : string) :
  String.prefix (String a s1) (String b s2) =
  if ascii_dec a b then String.prefix s1 s2 else false.
Proof. reflexivity. Qed.

Lemma first_match_cons (o n : string) (pats : list (string * string)) (s : string) :
  first_match ((o, n) :: pats) s = if String.prefix o s then Some (o, n) else first_match pats s.
Proof. reflexivity. Qed.

Section Replacer.
Variable props : list (string * value).
Local Abbreviation P := (map replacement_pair props).

Lemma replace_skip (pats : list (string * string)) (x rest : string) :
  replace_from pats (x ++ rest) (String.length x) = replace_from pats rest 0.
Proof. induction x as [|c x IH]; simpl; [now destruct rest | exact IH]. Qed.

Lemma replace_hit (pats : list (string * string)) (o n rest : string) :
  o <> EmptyString -> first_match pats (o ++ rest) = Some (o, n) ->
  replace_from pats (o ++ rest) 0 = n ++ replace_from pats rest 0.
Proof.
  intros Ho H. destruct o as [|c o']; [now elim Ho|].
  simpl in H |- *. rewrite H. simpl. now rewrite replace_skip.
Qed.

Lemma first_match_other (c : ascii) (s : string) :
  c <> "{"%char -> first_match P (String c s) = None.
Proof.
  intro Hc. induction props as [|[k v] ps IH]; [reflexivity|].
  cbn [map]. unfold replacement_pair, placeholder; cbn [fst snd].
  rewrite first_match_cons. cbn [String.append]. rewrite prefix_cons.
  destruct (ascii_dec "{" c) as [E|_]; [now elim Hc|]. exact IH.
Qed.

Lemma first_match_second (c : ascii) (s : string) :
  c <> "{"%char -> first_match P (String "{" (String c s)) = None.
Proof.
  intro Hc. induction props as [|[k v] ps IH]; [reflexivity|].
  cbn [map]. unfold replacement_pair, placeholder; cbn [fst snd].
  rewrite first_match_cons. cbn [String.append]. rewrite !prefix_cons.
  destruct (ascii_dec "{" "{") as [_|n]; [|now elim n].
  destruct (ascii_dec "{" c) as [E|_]; [now elim Hc|]. exact IH.
Qed.

Lemma replace_copy (x rest : string) :
  no_open_brace x = true -> replace_from P (x ++ rest) 0 = x ++ replace_from P rest 0.
Proof.
  induction x as [|c x IH]; intro H; [reflexivity|].
  unfold no_open_brace, all_chars in H. simpl in H. apply andb_prop in H as [Hc Hx].
  cbn [String.append replace_from]. rewrite (first_match_other c _ (not_open_brace c Hc)).
  now rewrite IH.
Qed.

Lemma first_match_props (k0 s : string) :
  (forall kv, In kv props -> String.prefix (placeholder (fst kv)) s = String.eqb k0 (fst kv)) ->
  first_match P s =
    match lookup k0 props with
    | Some v => Some (placeholder k0, html_escape (sprint_v v))
    | None => None
    end.
Proof.
  induction props as [|[k v] ps IH]; intro H; [reflexivity|].
  cbn [map lookup]. unfold replacement_pair at 1; cbn [fst snd]. rewrite first_match_cons.
  pose proof (H (k, v) (or_introl eq_refl)) as Hk; cbn [fst] in Hk. rewrite Hk.
  destruct (String.eqb k0 k) eqn:E.
  - apply String.eqb_eq in E. now subst.
  - apply IH. intros kv Hin. apply H. now right.
Qed.

Lemma first_match_absent (s : string) :
  (forall kv, In kv props -> String.prefix (placeholder (fst kv)) s = false) ->
  first_match P s = None.
Proof.
  induction props as [|[k v] ps IH]; intro H; [reflexivity|].
  cbn [map]. unfold replacement_pair at 1; cbn [fst snd]. rewrite first_match_cons.
  pose proof (H (k, v) (or_introl eq_refl)) as Hk; cbn [fst] in Hk. rewrite Hk.
  apply IH. intros kv Hin. apply H. now right.
Qed.

End Replacer.

(** ** Brace pairs against the placeholders of the replacer *)

Lemma brace_split_list (A B x y : list ascii) :
  forallb not_brace A = true -> forallb not_brace B = true ->
  (A ++ "}"%char :: x = B ++ "}"%char :: y)%list -> A = B /\ x = y.
Proof.
  revert B; induction A as [|a A IH]; intros [|b B] HA HB H; cbn [app] in H.
  - now injection H.
  - injection H as <- _. discriminate HB.
  - injection H as -> _. discriminate HA.
  - injection H as <- H. cbn [forallb] in HA, HB.
    apply andb_prop in HA as [_ HA]. apply andb_prop in HB as [_ HB].
    destruct (IH B HA HB H) as [-> ->]. now split.
Qed.

Lemma hole_key_ok_shape (k : string) :
  hole_key_ok k = true ->
  brace_free k = true /\
  (exists c K, list_ascii_of_string k = c :: K /\ c <> " "%char) /\
  (exists K d, list_ascii_of_string k = (K ++ [d])%list /\ d <> " "%char).
Proof.
  unfold hole_key_ok. intro H. apply andb_prop in H as [Hb H]. split; [exact Hb|].
  destruct (list_ascii_of_string k) as [|c K] eqn:E; [discriminate|].
  apply andb_prop in H as [Hc Hd]. split.
  - exists c, K. split; [reflexivity|]. intros ->. discriminate Hc.
  - exists (removelast (c :: K)), (last (c :: K) c). split.
    + apply app_removelast_last. discriminate.
    + intro Hl. rewrite Hl in Hd. discriminate Hd.
Qed.

Lemma hole_text_eq (l' : nat) (k : string) (r' : nat) :
  seg_text (Hole (S l') k (S r')) = placeholder (spaces l' ++ k ++ spaces r').
Proof.
  apply lao_inj. unfold seg_text, placeholder. rewrite (spaces_S_r r').
  cbn [spaces]. repeat rewrite lao_app. cbn [list_ascii_of_string String.append].
  repeat rewrite lao_app. cbn [list_ascii_of_string app].
  repeat rewrite <- app_assoc. reflexivity.
Qed.

Lemma hole_prefix (k2 k : string) (l r : nat) (rest : string) :
  brace_free k2 = true -> hole_key_ok k = true ->
  String.prefix (placeholder k2) (seg_text (Hole l k r) ++ rest) = true ->
  exists l' r', l = S l' /\ r = S r' /\ k2 = spaces l' ++ k ++ spaces r'.
Proof.
  intros Hk2 Hk Hp.
  destruct (hole_key_ok_shape k Hk) as [Hbk [[c [K [Ek Hc]]] [K' [d [Ek' Hd]]]]].
  destruct (prefix_split _ _ Hp) as [t Ht].
  apply (f_equal list_ascii_of_string) in Ht. unfold seg_text, placeholder in Ht.
  repeat rewrite lao_app in Ht. cbn [list_ascii_of_string String.append] in Ht.
  repeat rewrite lao_app in Ht. cbn [list_ascii_of_string] in Ht.
  repeat rewrite <- app_assoc in Ht. cbn [app] in Ht.
  injection Ht as Ht.
  assert (E : ((list_ascii_of_string (spaces l) ++ list_ascii_of_string k ++
                list_ascii_of_string (spaces r)) ++ "}"%char :: "}"%char :: list_ascii_of_string rest
              = (" "%char :: list_ascii_of_string k2 ++ [" "%char]) ++
                "}"%char :: "}"%char :: list_ascii_of_string t)%list).
  { repeat rewrite <- app_assoc. cbn [app]. repeat rewrite <- app_assoc. exact Ht. }
  apply brace_split_list in E as [E _].
  2: { rewrite !forallb_app. unfold brace_free, all_chars in Hbk.
       pose proof (brace_free_spaces l) as Hl; pose proof (brace_free_spaces r) as Hr.
       unfold brace_free, all_chars in Hl, Hr. now rewrite Hl, Hr, Hbk. }
  2: { cbn [forallb]. rewrite forallb_app. unfold brace_free, all_chars in Hk2.
       now rewrite Hk2. }
  destruct l as [|l'].
  { cbn [spaces list_ascii_of_string app] in E. rewrite Ek in E.
    injection E as E _. contradiction. }
  change (list_ascii_of_string (spaces (S l')))
    with (" "%char :: list_ascii_of_string (spaces l')) in E.
  cbn [app] in E. injection E as E.
  destruct r as [|r'].
  { change (list_ascii_of_string (spaces 0)) with (@nil ascii) in E.
    rewrite app_nil_r, Ek', app_assoc in E. apply app_inj_tail in E as [_ E].
    contradiction. }
  rewrite spaces_S_r, lao_app in E. cbn [list_ascii_of_string] in E.
  rewrite !app_assoc in E. apply app_inj_tail in E as [E _].
  exists l', r'. split; [reflexivity|]. split; [reflexivity|].
  apply lao_inj. repeat rewrite lao_app. rewrite <- E.
  repeat rewrite <- app_assoc. reflexivity.
Qed.

Lemma replace_from_none (pats : list (string * string)) (c : ascii) (s : string) :
  first_match pats (String c s) = None ->
  replace_from pats (String c s) 0 = String c (replace_from pats s 0).
Proof. intro H. cbn [replace_from]. now rewrite H. Qed.

Lemma app_nonempty_r (a b : string) : b <> EmptyString -> a ++ b <> EmptyString.
Proof. destruct a; simpl; [auto | discriminate]. Qed.

Lemma lookup_in {A} (k : string) (v : A) (m : list (string * A)) :
  In (k, v) m -> lookup k m <> None.
Proof.
  induction m as [|[k' v'] m IH]; intros H; [destruct H|].
  cbn [lookup]. destruct (String.eqb k k') eqn:E; [discriminate|].
  destruct H as [H|H]; [|now apply IH].
  injection H as -> _. now rewrite String.eqb_refl in E.
Qed.

Section RenderSeg.
Variable props : list (string * value).
Hypothesis Hkeys : forallb (fun kv => brace_free (fst kv)) props = true.
Local Abbreviation P := (map replacement_pair props).

Lemma keys_brace_free (kv : string * value) : In kv props -> brace_free (fst kv) = true.
Proof. intro H. rewrite forallb_forall in Hkeys. exact (Hkeys kv H). Qed.

Lemma render_hole_hit (l' : nat) (k : string) (r' : nat) (v : value) (rest : string) :
  hole_key_ok k = true -> lookup (spaces l' ++ k ++ spaces r') props = Some v ->
  replace_from P (seg_text (Hole (S l') k (S r')) ++ rest) 0
  = html_escape (sprint_v v) ++ replace_from P rest 0.
Proof.
  intros Hk Hl. set (k' := spaces l' ++ k ++ spaces r') in *.
  rewrite hole_text_eq. fold k'. apply replace_hit.
  - unfold placeholder. discriminate.
  - rewrite (first_match_props props k'); [now rewrite Hl|].
    intros kv Hin. destruct (String.eqb k' (fst kv)) eqn:E.
    + apply String.eqb_eq in E. rewrite <- E. apply prefix_app.
    + destruct (String.prefix (placeholder (fst kv)) (placeholder k' ++ rest)) eqn:Hp;
        [|reflexivity].
      unfold k' in Hp. rewrite <- hole_text_eq in Hp.
      destruct (hole_prefix _ _ _ _ _ (keys_brace_free kv Hin) Hk Hp)
        as [l2 [r2 [E1 [E2 E3]]]].
      injection E1 as <-. injection E2 as <-. fold k' in E3.
      rewrite E3, String.eqb_refl in E. discriminate.
Qed.

Lemma render_hole_miss (l : nat) (k : string) (r : nat) (rest : string) :
  hole_key_ok k = true ->
  (forall l' r', l = S l' -> r = S r' -> lookup (spaces l' ++ k ++ spaces r') props = None) ->
  replace_from P (seg_text (Hole l k r) ++ rest) 0
  = seg_text (Hole l k r) ++ replace_from P rest 0.
Proof.
  intros Hk Hmiss.
  assert (Hnone : first_match P (seg_text (Hole l k r) ++ rest) = None).
  { apply first_match_absent. intros kv Hin.
    destruct (String.prefix (placeholder (fst kv)) (seg_text (Hole l k r) ++ rest)) eqn:Hp;
      [|reflexivity].
    destruct (hole_prefix _ _ _ _ _ (keys_brace_free kv Hin) Hk Hp)
      as [l' [r' [E1 [E2 E3]]]].
    destruct kv as [k2 v]. cbn [fst] in E3. subst k2.
    elim (lookup_in _ _ _ Hin). exact (Hmiss l' r' E1 E2). }
  set (x := spaces l ++ k ++ spaces r ++ "}}").
  assert (Ex : seg_text (Hole l k r) = String "{" (String "{" x)) by reflexivity.
  assert (Hx : no_open_brace x = true).
  { unfold x, no_open_brace. rewrite !all_chars_app.
    destruct (hole_key_ok_shape k Hk) as [Hb _].
    pose proof (brace_free_no_open _ Hb) as Hb'.
    pose proof (brace_free_no_open _ (brace_free_spaces l)) as Hl.
    pose proof (brace_free_no_open _ (brace_free_spaces r)) as Hr.
    unfold no_open_brace in Hb', Hl, Hr. rewrite Hl, Hr, Hb'. reflexivity. }
  assert (Hne : x <> EmptyString).
  { unfold x. apply app_nonempty_r, app_nonempty_r, app_nonempty_r. discriminate. }
  rewrite Ex in Hnone |- *. cbn [String.append] in Hnone |- *.
  rewrite (replace_from_none _ _ _ Hnone).
  destruct x as [|c x'] eqn:Ex'; [now elim Hne|].
  unfold no_open_brace, all_chars in Hx. cbn [list_ascii_of_string forallb] in Hx.
  apply andb_prop in Hx as [Hc Hx'].
  cbn [String.append]. rewrite replace_from_none.
  2: { apply first_match_second. exact (not_open_brace c Hc). }
  change (String c (x' ++ rest)) with (String c x' ++ rest).
  rewrite replace_copy; [reflexivity|].
  unfold no_open_brace, all_chars. cbn [list_ascii_of_string forallb]. now rewrite Hc, Hx'.
Qed.

Lemma render_seg (sg : seg) (rest : string) :
  seg_ok sg = true ->
  replace_from P (seg_text sg ++ rest) 0 = seg_out props sg ++ replace_from P rest 0.
Proof.
  destruct sg as [s|l k r]; cbn [seg_ok]; intro Hs.
  - apply replace_copy. exact Hs.
  - destruct l as [|l']; [apply render_hole_miss; [exact Hs|discriminate]|].
    destruct r as [|r']; [apply render_hole_miss; [exact Hs|discriminate]|].
    cbn [seg_out]. destruct (lookup (spaces l' ++ k ++ spaces r') props) as [v|] eqn:Hl.
    + now apply render_hole_hit.
    + apply render_hole_miss; [exact Hs|]. intros a b Ea Eb.
      injection Ea as <-. injection Eb as <-. exact Hl.
Qed.

Lemma replace_segments (segs : list seg) :
  forallb seg_ok segs = true ->
  Replace P (template_of segs) = concat_str (map (seg_out props) segs).
Proof.
  unfold Replace, template_of. induction segs as [|sg segs IH]; intro H; [reflexivity|].
  cbn [forallb] in H. apply andb_prop in H as [H1 H2].
  cbn [map concat_str]. rewrite render_seg by exact H1. now rewrite IH.
Qed.

End RenderSeg.

Lemma seg_out_nil (sg : seg) : seg_out [] sg = seg_text sg.
Proof. destruct sg as [s|[|l] k [|r]]; reflexivity. Qed.


(** ** The well-formedness checker *)

Lemma wrun_app (st : wstate) (a b : string) :
  wrun st (a ++ b) = match wrun st a with Some st' => wrun st' b | None => None end.
Proof.
  revert st; induction a as [|c a IH]; intro st; [reflexivity|].
  cbn [String.append wrun]. destruct (wstep st c); [apply IH|reflexivity].
Qed.

Lemma is_char_true (c : ascii) (n : nat) : n < 256 -> is_char c n = true -> c = chr n.
Proof.
  unfold is_char, chr. intros Hn H. apply Nat.eqb_eq in H. subst n.
  now rewrite ascii_nat_embedding.
Qed.

Lemma wstep_inv (st st' : wstate) (c : ascii) :
  inv_mode (fst st) = true -> wstep st c = Some st' -> inv_mode (fst st') = true.
Proof.
  destruct st as [m stk]. cbn [fst]. intros Hi H.
  destruct m; cbn [wstep] in H;
    repeat match goal with
    | H : (if ?b then _ else _) = _ |- _ => destruct b eqn:?
    | H : pop _ _ = _ |- _ => unfold pop in H
    | H : match ?x with _ => _ end = _ |- _ => destruct x eqn:?
    | H : None = Some _ |- _ => discriminate H
    | H : Some _ = Some _ |- _ => injection H as <-
    end; cbn [fst inv_mode] in *; auto.
Qed.

Lemma wrun_inv (st st' : wstate) (s : string) :
  inv_mode (fst st) = true -> wrun st s = Some st' -> inv_mode (fst st') = true.
Proof.
  revert st; induction s as [|c s IH]; intros st Hi H; cbn [wrun] in H.
  - now injection H as <-.
  - destruct (wstep st c) as [st1|] eqn:E; [|discriminate].
    exact (IH st1 (wstep_inv _ _ _ Hi E) H).
Qed.

(** An open brace is only accepted as data. *)
Lemma wstep_brace (m : wmode) (stk : list string) (st' : wstate) :
  inv_mode m = true -> wstep (m, stk) "{" = Some st' ->
  text_like m = true /\ st' = (m, stk).
Proof.
  intros Hi H. destruct m as [| | |? ?|? ? ?|? ? ?|? ?|name seen q|? ?| |acc|?|? ?];
    cbn [wstep] in H; try discriminate H.
  - injection H as <-. now split.
  - cbn [inv_mode] in Hi. unfold quote_ok in Hi.
    apply orb_prop in Hi as [Hq|Hq]; apply is_char_true in Hq; try lia; subst q;
      injection H as <-; split; reflexivity.
  - destruct (String.eqb acc ""); discriminate H.
Qed.

Lemma text_like_cases (m : wmode) :
  text_like m = true ->
  m = WText \/ exists name seen, m = WAVal name seen (chr 34) \/ m = WAVal name seen (chr 39).
Proof.
  destruct m; cbn [text_like]; intro H; try discriminate H; [now left|].
  right. exists name, seen. unfold quote_ok in H.
  apply orb_prop in H as [H|H]; apply is_char_true in H; try lia; subst; auto.
Qed.

Lemma wstep_plain (m : wmode) (stk : list string) (c : ascii) :
  text_like m = true -> plain_char c = true -> wstep (m, stk) c = Some (m, stk).
Proof.
  intros Hm Hc. unfold plain_char in Hc.
  repeat rewrite andb_true_iff in Hc. rewrite !negb_true_iff in Hc.
  destruct Hc as [[[[[Hl H60] H62] H38] H34] H39].
  destruct (text_like_cases m Hm) as [->|[name [seen [->| ->]]]]; cbn [wstep].
  - now rewrite H60, H38, H62, Hl.
  - destruct (Ascii.eqb_spec c (chr 34)) as [->|_]; [discriminate H34|].
    now rewrite H60, H38, Hl.
  - destruct (Ascii.eqb_spec c (chr 39)) as [->|_]; [discriminate H39|].
    now rewrite H60, H38, Hl.
Qed.

Lemma plain_stay (m : wmode) (stk : list string) (x : string) :
  text_like m = true -> all_chars plain_char x = true -> wrun (m, stk) x = Some (m, stk).
Proof.
  intro Hm. induction x as [|c x IH]; intro H; [reflexivity|].
  unfold all_chars in H. cbn [list_ascii_of_string forallb] in H.
  apply andb_prop in H as [Hc Hx]. cbn [wrun]. rewrite wstep_plain by assumption.
  exact (IH Hx).
Qed.

Lemma escape_char_stay (m : wmode) (stk : list string) (c : ascii) :
  text_like m = true -> xml_legal c = true ->
  wrun (m, stk) (html_escape_char c) = Some (m, stk).
Proof.
  intros Hm Hl. unfold html_escape_char.
  destruct (is_char c 38) eqn:H38;
    [destruct (text_like_cases m Hm) as [->|[? [? [->| ->]]]]; reflexivity|].
  destruct (is_char c 39) eqn:H39;
    [destruct (text_like_cases m Hm) as [->|[? [? [->| ->]]]]; reflexivity|].
  destruct (is_char c 60) eqn:H60;
    [destruct (text_like_cases m Hm) as [->|[? [? [->| ->]]]]; reflexivity|].
  destruct (is_char c 62) eqn:H62;
    [destruct (text_like_cases m Hm) as [->|[? [? [->| ->]]]]; reflexivity|].
  destruct (is_char c 34) eqn:H34;
    [destruct (text_like_cases m Hm) as [->|[? [? [->| ->]]]]; reflexivity|].
  apply plain_stay; [exact Hm|]. unfold all_chars, plain_char. cbn [list_ascii_of_string forallb].
  unfold str1. cbn [list_ascii_of_string forallb].
  now rewrite Hl, H60, H62, H38, H34, H39.
Qed.

Lemma escape_stay (m : wmode) (stk : list string) (x : string) :
  text_like m = true -> all_chars xml_legal x = true ->
  wrun (m, stk) (html_escape x) = Some (m, stk).
Proof.
  intro Hm. induction x as [|c x IH]; intro H; [reflexivity|].
  unfold all_chars in H. cbn [list_ascii_of_string forallb] in H.
  apply andb_prop in H as [Hc Hx]. cbn [html_escape]. rewrite wrun_app.
  rewrite escape_char_stay by assumption. exact (IH Hx).
Qed.

Lemma str_length_app (a b : string) : String.length (a ++ b) = String.length a + String.length b.
Proof. induction a as [|c a IH]; cbn; [reflexivity | now rewrite IH]. Qed.

Lemma first_match_some (props : list (string * value)) (s o n : string) :
  first_match (map replacement_pair props) s = Some (o, n) ->
  exists k v, In (k, v) props /\ o = placeholder k /\ n = html_escape (sprint_v v) /\
              String.prefix o s = true.
Proof.
  induction props as [|[k v] ps IH]; intro H; [discriminate H|].
  cbn [map] in H. unfold replacement_pair at 1 in H; cbn [fst snd] in H.
  rewrite first_match_cons in H.
  destruct (String.prefix (placeholder k) s) eqn:Hp.
  - injection H as <- <-. exists k, v. repeat split; auto. now left.
  - destruct (IH H) as [k' [v' [Hin R]]]. exists k', v'. split; [now right|exact R].
Qed.

Section RenderWf.
Variable props : list (string * value).
Hypothesis Hprops :
  forallb (fun kv => all_chars plain_char (fst kv) && all_chars xml_legal (sprint_v (snd kv)))
    props = true.
Local Abbreviation P := (map replacement_pair props).

Lemma placeholder_plain (k : string) (v : value) :
  In (k, v) props -> all_chars plain_char (placeholder k) = true.
Proof.
  intro Hin. rewrite forallb_forall in Hprops. specialize (Hprops (k, v) Hin).
  cbn [fst snd] in Hprops. apply andb_prop in Hprops as [Hk _].
  unfold placeholder. rewrite !all_chars_app, Hk. reflexivity.
Qed.

Lemma value_legal (k : string) (v : value) :
  In (k, v) props -> all_chars xml_legal (sprint_v v) = true.
Proof.
  intro Hin. rewrite forallb_forall in Hprops. specialize (Hprops (k, v) Hin).
  cbn [fst snd] in Hprops. now apply andb_prop in Hprops as [_ Hv].
Qed.

(** Running the checker over the rendering ends where running it over the
    template ends. *)
Lemma render_sim (n : nat) :
  forall s st fin, String.length s <= n -> inv_mode (fst st) = true ->
  wrun st s = Some fin -> wrun st (replace_from P s 0) = Some fin.
Proof.
  induction n as [|n IH]; intros s st fin Hlen Hi Hrun.
  - destruct s; [exact Hrun | cbn in Hlen; lia].
  - destruct s as [|c s']; [exact Hrun|].
    destruct (first_match P (String c s')) as [[o n']|] eqn:Hfm.
    + destruct (first_match_some _ _ _ _ Hfm) as [k [v [Hin [-> [-> Hpre]]]]].
      destruct (prefix_split _ _ Hpre) as [rest Hs].
      rewrite Hs in Hfm, Hlen, Hrun |- *.
      rewrite (replace_hit P (placeholder k) (html_escape (sprint_v v)) rest)
        by (unfold placeholder; discriminate || exact Hfm).
      destruct st as [m stk]. rewrite wrun_app in Hrun |- *.
      assert (Hm : text_like m = true).
      { destruct (wrun (m, stk) (placeholder k)) as [st1|] eqn:E1; [|discriminate Hrun].
        unfold placeholder in E1. cbn [String.append wrun] in E1.
        destruct (wstep (m, stk) "{") as [st2|] eqn:E2; [|discriminate E1].
        exact (proj1 (wstep_brace _ _ _ Hi E2)). }
      rewrite (plain_stay m stk _ Hm (placeholder_plain k v Hin)) in Hrun.
      rewrite (escape_stay m stk _ Hm (value_legal k v Hin)).
      apply IH; [|exact Hi|exact Hrun].
      rewrite str_length_app in Hlen. unfold placeholder in Hlen. cbn in Hlen. lia.
    + rewrite replace_from_none by exact Hfm. cbn [wrun] in Hrun |- *.
      destruct (wstep st c) as [st1|] eqn:E; [|discriminate Hrun].
      apply IH; [cbn in Hlen; lia | exact (wstep_inv _ _ _ Hi E) | exact Hrun].
Qed.

End RenderWf.

(** ** Finding and replacing the body *)

Lemma find_body_node_elem (t : string) (a : list (string * string)) (ks : list xnode) :
  find_body_node (XElem t a ks) =
  if String.eqb t "w:body" then Some (XElem t a ks) else find_body ks.
Proof.
  cbn [find_body_node]. destruct (String.eqb t "w:body"); [reflexivity|].
  induction ks as [|k ks IH]; [reflexivity|]. cbn. now rewrite IH.
Qed.

Lemma set_body_node_elem (kids' : list xnode) (t : string) (a : list (string * string))
  (ks : list xnode) :
  set_body_node kids' (XElem t a ks) =
  if String.eqb t "w:body" then Some (XElem t a kids')
  else match set_body_list (set_body_node kids') ks with
       | Some ks' => Some (XElem t a ks')
       | None => None
       end.
Proof. reflexivity. Qed.

Section SetBody.
Variable kids' : list xnode.

Lemma set_find (n : xnode) : set_find_node kids' n.
Proof.
  apply (xnode_ind2 (set_find_node kids') (set_find_list kids')); unfold set_find_node, set_find_list.
  - intros t0 a0 ks [IH1 IH2]. rewrite find_body_node_elem, set_body_node_elem.
    destruct (String.eqb t0 "w:body") eqn:Et.
    + split; [discriminate|]. intros t a k0 H. injection H as <- <- _.
      exists (XElem t0 a0 kids'). split; [reflexivity|].
      now rewrite find_body_node_elem, Et.
    + split; [intro H; now rewrite (IH1 H)|].
      intros t a k0 H. destruct (IH2 t a k0 H) as [l' [E1 E2]].
      exists (XElem t0 a0 l'). rewrite E1. split; [reflexivity|].
      now rewrite find_body_node_elem, Et.
  - intro s. split; [reflexivity|discriminate].
  - intro s. split; [reflexivity|discriminate].
  - intros t d. split; [reflexivity|discriminate].
  - split; [reflexivity|discriminate].
  - intros k ks [Pk1 Pk2] [Ql1 Ql2]. cbn [find_body set_body_list]. split.
    + destruct (find_body_node k) eqn:Ek; [discriminate|]. intro H.
      now rewrite (Pk1 eq_refl), (Ql1 H).
    + intros t a k0 H. destruct (find_body_node k) as [b|] eqn:Ek.
      * injection H as ->. destruct (Pk2 t a k0 eq_refl) as [n' [E1 E2]].
        exists (n' :: ks). rewrite E1. split; [reflexivity|]. cbn [find_body]. now rewrite E2.
      * rewrite (Pk1 eq_refl). destruct (Ql2 t a k0 H) as [l' [E1 E2]].
        exists (k :: l'). rewrite E1. split; [reflexivity|]. cbn [find_body]. now rewrite Ek.
Qed.

Lemma set_body_find (doc : list xnode) (t : string) (a : list (string * string))
  (ks : list xnode) :
  find_body doc = Some (XElem t a ks) -> find_body (set_body kids' doc) = Some (XElem t a kids').
Proof.
  induction doc as [|k doc IH]; intro H; [discriminate H|].
  cbn [find_body set_body] in H |- *. destruct (set_find k) as [P1 P2].
  destruct (find_body_node k) as [b|] eqn:Ek.
  - injection H as ->. destruct (P2 t a ks eq_refl) as [n' [E1 E2]].
    rewrite E1. cbn [find_body]. now rewrite E2.
  - rewrite (P1 eq_refl). cbn [find_body]. rewrite Ek. exact (IH H).
Qed.

End SetBody.

(** ** The body loop *)

Lemma add_components_ok (comps : list (string * string)) (cis : list ComponentInstance) :
  forall kids kids', add_components comps kids cis = Ok kids' ->
  exists els, Forall2 (fun ci e => component_elements comps ci = Ok e) cis els /\
              kids' = (kids ++ concat els)%list.
Proof.
  induction cis as [|ci cis IH]; intros kids kids' H; cbn [add_components] in H.
  - injection H as <-. exists []. split; [constructor|]. now rewrite app_nil_r.
  - unfold addComponentToBody in H.
    destruct (component_elements comps ci) as [e|er] eqn:Ee; [|discriminate H].
    destruct (IH _ _ H) as [els [HF ->]]. exists (e :: els). split.
    + now constructor.
    + cbn [concat]. now rewrite app_assoc.
Qed.

Lemma assemble_tree_ok (comps : list (string * string)) (xml : string)
  (plan : DocumentPlan) (doc' : list xnode) :
  assemble_tree comps xml plan = Ok doc' ->
  exists doc t a pre els,
    etree_read xml = Some doc /\ find_body doc = Some (XElem t a pre) /\
    Forall2 (fun ci e => component_elements comps ci = Ok e) (Body plan) els /\
    find_body doc' = Some (XElem t a (pre ++ concat els)) /\
    doc' = set_body (pre ++ concat els) doc.
Proof.
  unfold assemble_tree. intro H.
  destruct (etree_read xml) as [doc|]; [|discriminate H].
  destruct (find_body doc) as [[t a pre| | |]|] eqn:Eb; try discriminate H.
  destruct (add_components comps pre (Body plan)) as [kids'|er] eqn:Ea; [|discriminate H].
  injection H as <-. destruct (add_components_ok _ _ _ _ Ea) as [els [HF ->]].
  exists doc, t, a, pre, els. repeat split; auto.
  exact (set_body_find _ _ _ _ _ Eb).
Qed.

(** ** The heap of buffers *)

Lemma frame_ret {A} (a : A) : frame_ok (ret a).
Proof. intro st. split; [reflexivity | intros; reflexivity]. Qed.

Lemma frame_fail {A} (e : docgen_error) : frame_ok (@fail A e).
Proof. intro st. split; [reflexivity | intros; reflexivity]. Qed.

Lemma frame_read_buf (p : nat) : frame_ok (read_buf p).
Proof. intro st. split; [reflexivity | intros; reflexivity]. Qed.

Lemma frame_alloc (s : string) : frame_ok (alloc s).
Proof.
  intro st. cbn [alloc snd heap next_ptr]. split; [lia|].
  intros p Hp. cbn [heap_get]. destruct (Nat.eqb_spec p (next_ptr st)); [lia|reflexivity].
Qed.

Lemma frame_bind {A B} (m : M A) (k : A -> M B) :
  frame_ok m -> (forall a, frame_ok (k a)) -> frame_ok (bind m k).
Proof.
  intros Hm Hk st. unfold bind. destruct (Hm st) as [H1 H2].
  destruct (m st) as [[a|er] st1]; cbn [snd] in *; [|now split].
  destruct (Hk a st1) as [H3 H4]. split; [lia|].
  intros p Hp. rewrite H4 by lia. now apply H2.
Qed.

Lemma frame_clone_entries (es acc : InMemoryDocx) : frame_ok (clone_entries es acc).
Proof.
  revert acc; induction es as [|[path p] es IH]; intro acc; cbn [clone_entries].
  - apply frame_ret.
  - apply frame_bind; [apply frame_read_buf|intro c].
    apply frame_bind; [apply frame_alloc|intro q]. apply IH.
Qed.

Lemma frame_read_entries (m : InMemoryDocx) (ord : list string) : frame_ok (read_entries m ord).
Proof.
  induction ord as [|path ord IH]; cbn [read_entries]; [apply frame_ret|].
  apply frame_bind; [apply frame_read_buf|intro c].
  apply frame_bind; [exact IH|intro r]. apply frame_ret.
Qed.

Lemma frame_assemble (deflate : string -> string) (e : Engine) (plan : DocumentPlan)
  (ord : list string) : frame_ok (AssembleDocument deflate e plan ord).
Proof.
  unfold AssembleDocument. apply frame_bind; [apply frame_clone_entries|intro wd].
  destruct (lookup "word/document.xml" wd) as [p|]; [|apply frame_fail].
  apply frame_bind; [apply frame_read_buf|intro xml].
  destruct (assemble_tree (components e) xml plan) as [doc'|er]; [|apply frame_fail].
  apply frame_bind; [apply frame_alloc|intro q].
  unfold ToBytes. apply frame_bind; [apply frame_read_entries|intro es]. apply frame_ret.
Qed.

Lemma lookup_map_insert {A} (k k' : string) (v : A) (m : list (string * A)) :
  lookup k (map_insert k' v m) = if String.eqb k k' then Some v else lookup k m.
Proof.
  induction m as [|[k2 v2] m IH]; cbn [map_insert lookup]; [reflexivity|].
  destruct (String.eqb_spec k' k2) as [<-|Hne]; cbn [lookup].
  - destruct (String.eqb k k'); reflexivity.
  - rewrite IH. destruct (String.eqb_spec k k2) as [->|]; [|reflexivity].
    destruct (String.eqb_spec k2 k') as [->|]; [now elim Hne|reflexivity].
Qed.

(** The buffers of a clone are the ones it allocates. *)
Lemma clone_entries_fresh (es : InMemoryDocx) :
  forall acc st wd st1, clone_entries es acc st = (Ok wd, st1) ->
  forall path q, lookup path wd = Some q ->
  lookup path acc = Some q \/ (next_ptr st <= q /\ q < next_ptr st1).
Proof.
  induction es as [|[path0 p] es IH]; intros acc st wd st1 H path q Hq;
    cbn [clone_entries] in H.
  - injection H as <- _. now left.
  - unfold bind, read_buf, alloc in H. cbn [fst snd] in H.
    set (st2 := mkSt _ (S (next_ptr st))) in H.
    pose proof (frame_clone_entries es (map_insert path0 (next_ptr st) acc) st2) as [Hmono _].
    rewrite H in Hmono. cbn [snd next_ptr st2] in Hmono.
    destruct (IH _ _ _ _ H path q Hq) as [Hl|[Hlo Hhi]].
    + rewrite lookup_map_insert in Hl. destruct (String.eqb path path0).
      * injection Hl as <-. right. lia.
      * now left.
    + right. cbn [next_ptr st2] in Hlo. lia.
Qed.

(* ================================================================== *)
(** * Properties stated by the specification *)

(** ** Assembly of the body *)

(** C1 (counterexample): [addComponentToBody] never reads [props.children].
    A parent whose [children] names a component missing from the library
    is assembled without error, and the body receives the parent's own
    element only; the child is neither looked up nor rendered. *)
Lemma children_not_rendered :
  GetComponent parent_library "Missing" = Err (ComponentNotFoundError "Missing") /\
  assemble_tree parent_library shell_document_xml parent_plan =
  Ok [XElem "w:document" []
        [XElem "w:body" []
           [XElem "w:sectPr" [] [];
            XElem "w:p" [] [XElem "w:t" [] [XText "T"]]]]].
Proof. split; vm_compute; reflexivity. Qed.

(** C1 (amended): for every plan, when the tree part of [AssembleDocument]
    succeeds, the new body holds its previous children followed, in plan
    order, by the elements of each top-level component instance alone
    (template found, rendered with the instance's whole [Props], where
    [children] is only a stringified value, parsed); nothing is added for
    the instances listed under [children]. *)
Theorem assemble_body_top_level (comps : list (string * string)) (xml : string)
  (plan : DocumentPlan) (doc' : list xnode) :
  assemble_tree comps xml plan = Ok doc' ->
  exists doc t a pre els,
    etree_read xml = Some doc /\ find_body doc = Some (XElem t a pre) /\
    Forall2 (fun ci e => component_elements comps ci = Ok e) (Body plan) els /\
    find_body doc' = Some (XElem t a (pre ++ concat els)).
Proof.
  intro H. destruct (assemble_tree_ok _ _ _ _ H)
    as (doc & t & a & pre & els & H1 & H2 & H3 & H4 & _).
  now exists doc, t, a, pre, els.
Qed.

Lemma assemble_body_top_level_witness :
  assemble_tree parent_library shell_document_xml parent_plan =
    Ok [XElem "w:document" []
          [XElem "w:body" []
             [XElem "w:sectPr" [] [];
              XElem "w:p" [] [XElem "w:t" [] [XText "T"]]]]] /\
  exists doc t a pre els,
    etree_read shell_document_xml = Some doc /\ find_body doc = Some (XElem t a pre) /\
    Forall2 (fun ci e => component_elements parent_library ci = Ok e) (Body parent_plan) els /\
    find_body [XElem "w:document" []
                 [XElem "w:body" []
                    [XElem "w:sectPr" [] [];
                     XElem "w:p" [] [XElem "w:t" [] [XText "T"]]]]]
    = Some (XElem t a (pre ++ concat els)).
Proof.
  split.
  - vm_compute. reflexivity.
  - apply (assemble_body_top_level parent_library shell_document_xml parent_plan).
    vm_compute. reflexivity.
Defined.

(** C8: for every plan whose body is [[A; B; C]], when the tree part of
    [AssembleDocument] succeeds on a shell whose body has the children
    [pre], the new body is [pre] followed by the elements of [A], then of
    [B], then of [C]; the plan is walked as a list, no map order enters
    (the instances' [children] play no part either). *)
Theorem assemble_preserves_plan_order (comps : list (string * string)) (xml : string)
  (plan : DocumentPlan) (A B C : ComponentInstance) (doc doc' : list xnode)
  (t : string) (a : list (string * string)) (pre : list xnode) :
  Body plan = [A; B; C] -> etree_read xml = Some doc ->
  find_body doc = Some (XElem t a pre) -> assemble_tree comps xml plan = Ok doc' ->
  exists ea eb ec,
    component_elements comps A = Ok ea /\ component_elements comps B = Ok eb /\
    component_elements comps C = Ok ec /\
    find_body doc' = Some (XElem t a (pre ++ ea ++ eb ++ ec)).
Proof.
  intros Hb Hr Hf H.
  destruct (assemble_tree_ok _ _ _ _ H)
    as (doc0 & t0 & a0 & pre0 & els & H1 & H2 & H3 & H4 & _).
  rewrite Hr in H1. injection H1 as <-. rewrite Hf in H2. injection H2 as <- <- <-.
  rewrite Hb in H3. inversion H3 as [|? ea ? ? HA H3']; subst.
  inversion H3' as [|? eb ? ? HB H3'']; subst.
  inversion H3'' as [|? ec ? ? HC H3''']; subst.
  inversion H3'''; subst.
  exists ea, eb, ec. repeat split; auto.
  rewrite H4. cbn [concat]. now rewrite app_nil_r.
Qed.

Lemma assemble_preserves_plan_order_witness :
  Body leaf_plan = [leaf "A"; leaf "B"; leaf "C"] /\
  etree_read shell_document_xml =
    Some [XElem "w:document" [] [XElem "w:body" [] [XElem "w:sectPr" [] []]]] /\
  find_body [XElem "w:document" [] [XElem "w:body" [] [XElem "w:sectPr" [] []]]] =
    Some (XElem "w:body" [] [XElem "w:sectPr" [] []]) /\
  assemble_tree leaf_library shell_document_xml leaf_plan =
    Ok (set_body [XElem "w:sectPr" [] [];
                  XElem "w:p" [] [XElem "w:t" [] [XText "A"]];
                  XElem "w:p" [] [XElem "w:t" [] [XText "B"]];
                  XElem "w:p" [] [];
                  XElem "w:tbl" [] []]
          [XElem "w:document" [] [XElem "w:body" [] [XElem "w:sectPr" [] []]]]) /\
  exists ea eb ec,
    component_elements leaf_library (leaf "A") = Ok ea /\
    component_elements leaf_library (leaf "B") = Ok eb /\
    component_elements leaf_library (leaf "C") = Ok ec /\
    find_body (set_body [XElem "w:sectPr" [] [];
                         XElem "w:p" [] [XElem "w:t" [] [XText "A"]];
                         XElem "w:p" [] [XElem "w:t" [] [XText "B"]];
                         XElem "w:p" [] [];
                         XElem "w:tbl" [] []]
                 [XElem "w:document" [] [XElem "w:body" [] [XElem "w:sectPr" [] []]]])
    = Some (XElem "w:body" [] ([XElem "w:sectPr" [] []] ++ ea ++ eb ++ ec)).
Proof.
  split; [reflexivity|]. split; [vm_compute; reflexivity|].
  split; [vm_compute; reflexivity|]. split; [vm_compute; reflexivity|].
  apply (assemble_preserves_plan_order leaf_library shell_document_xml leaf_plan
           (leaf "A") (leaf "B") (leaf "C")
           [XElem "w:document" [] [XElem "w:body" [] [XElem "w:sectPr" [] []]]]);
    vm_compute; reflexivity.
Defined.

(** ** Output bytes and the canonical shell *)

(** C2 (divergence): [ToBytes] writes the zip entries in the order of
    [range d.files] over a Go map, an order that changes from run to run.
    For the valid one-title plan and a shell of two entries, the two
    orders the runtime may choose give different archives, whatever the
    deflate compressor: the first local header holds the length of the
    first entry's name (19 for [[Content_Types].xml], 17 for
    [word/document.xml]) at byte 26. *)
Theorem assemble_bytes_depend_on_map_order (deflate : string -> string) :
  Validate title_plan_json = true /\
  fst (AssembleDocument deflate sample_engine title_plan
         ["[Content_Types].xml"; "word/document.xml"] sample_state) <>
  fst (AssembleDocument deflate sample_engine title_plan
         ["word/document.xml"; "[Content_Types].xml"] sample_state).
Proof.
  split; [vm_compute; reflexivity|]. intro H.
  apply (f_equal (fun r => match r with Ok s => String.get 26 s | Err _ => None end)) in H.
  vm_compute in H. discriminate H.
Qed.

(** C10: for every plan, map order and compressor, whether
    [AssembleDocument] returns a document or an error, every buffer of the
    canonical shell (allocated before the request) keeps its bytes, and
    the buffers of the request's clone are fresh ones, distinct from it.
    The engine's shell map and component map are values the request only
    reads. *)
Theorem assemble_frame (deflate : string -> string) (e : Engine) (plan : DocumentPlan)
  (ord : list string) (st : St) (path : string) (p : nat) :
  In (path, p) (shell e) -> p < next_ptr st ->
  heap_get (heap (snd (AssembleDocument deflate e plan ord st))) p = heap_get (heap st) p /\
  (forall wd st1 path' q, Clone (shell e) st = (Ok wd, st1) -> lookup path' wd = Some q ->
   next_ptr st <= q /\ q <> p).
Proof.
  intros _ Hp. split.
  - destruct (frame_assemble deflate e plan ord st) as [_ H]. now apply H.
  - intros wd st1 path' q Hc Hq.
    destruct (clone_entries_fresh _ _ _ _ _ Hc _ _ Hq) as [Hl|[H1 _]];
      [discriminate Hl | split; lia].
Qed.

Lemma assemble_frame_witness :
  In ("word/document.xml", 1) (shell sample_engine) /\ 1 < next_ptr sample_state /\
  heap_get (heap (snd (AssembleDocument (fun s => s) sample_engine title_plan
                         ["word/document.xml"; "[Content_Types].xml"] sample_state))) 1
  = heap_get (heap sample_state) 1 /\
  (forall wd st1 path' q, Clone (shell sample_engine) sample_state = (Ok wd, st1) ->
   lookup path' wd = Some q -> next_ptr sample_state <= q /\ q <> 1).
Proof.
  split; [right; left; reflexivity|]. split; [cbn; lia|].
  apply (assemble_frame (fun s => s) sample_engine title_plan
           ["word/document.xml"; "[Content_Types].xml"] sample_state "word/document.xml" 1).
  - right; left; reflexivity.
  - cbn; lia.
Defined.

(** ** The validator and [rules.cue] *)

(** C3 (divergence): [rules.cue] has no rule on the length of [body], so
    the plan [{"body": []}] is valid. *)
Theorem validate_accepts_empty_body : Validate (VObj [("body", VList [])]) = true.
Proof. reflexivity. Qed.

(** C4 (divergence): [rules.cue] has no rule over the whole plan: the plan
    of the test [MissingDocumentTitle] (a subject and no title) and a plan
    with two titles are both valid. *)
Theorem validate_ignores_title_count :
  Validate subject_only_plan_json = true /\ Validate two_titles_plan_json = true.
Proof. split; vm_compute; reflexivity. Qed.

(** C9 (counterexample): [props] of [#ComponentInstance] is an open struct
    and nothing unifies the instances under [children] with
    [#ComponentInstance]: a title whose [children] holds a [Bogus] instance
    is valid. *)
Lemma nested_unknown_component_accepted : Validate nested_unknown_plan_json = true.
Proof. vm_compute. reflexivity. Qed.

(** C9 (amended): every plan with a top-level instance (an element of
    [body]) whose [component] is a string outside [#AllComponentNames] is
    invalid. *)
Theorem validate_rejects_unknown_top_level (m : list (string * value)) (items : list value)
  (cm : list (string * value)) (name : string) :
  lookup "body" m = Some (VList items) -> In (VObj cm) items ->
  lookup "component" cm = Some (VStr name) ->
  existsb (String.eqb name) AllComponentNames = false ->
  Validate (VObj m) = false.
Proof.
  intros Hb Hin Hc Hn. unfold Validate, field. rewrite Hb.
  assert (Hi : instance_ok (VObj cm) = false).
  { unfold instance_ok, field. rewrite Hc, Hn. now rewrite andb_false_r. }
  destruct (forallb instance_ok items) eqn:Hall.
  - rewrite forallb_forall in Hall. rewrite (Hall _ Hin) in Hi. discriminate Hi.
  - now rewrite andb_false_r.
Qed.

Lemma validate_rejects_unknown_top_level_witness :
  Validate (VObj [("body", VList [VObj [("component", VStr "Bogus")]])]) = false.
Proof.
  apply (validate_rejects_unknown_top_level _ [VObj [("component", VStr "Bogus")]]
           [("component", VStr "Bogus")] "Bogus"); try reflexivity.
  now left.
Defined.

(** ** Rendering *)

Lemma concat_str_app (l1 l2 : list string) :
  concat_str (l1 ++ l2) = concat_str l1 ++ concat_str l2.
Proof.
  induction l1 as [|s l1 IH]; cbn [app concat_str]; [reflexivity|].
  now rewrite IH, str_app_assoc.
Qed.

(** C5 (counterexample): [RenderComponent] substitutes every key of
    [props], [children] included, and [addComponentToBody] passes the whole
    [Props]: [{{ children }}] becomes the [%v] text of the array. *)
Lemma children_placeholder_substituted :
  RenderComponent "{{ children }}" [("children", VList [])] = "[]" /\
  RenderComponent "<w:t>{{ children }}</w:t>" [("children", VList [missing_child])]
  = "<w:t>[map[component:Missing props:map[]]]</w:t>".
Proof. split; vm_compute; reflexivity. Qed.

(** C5 (amended): [children] is an ordinary substitution key.  For every
    template made of segments around a [{{ children }}] placeholder and
    every props map with brace-free keys holding [children], rendering
    puts the escaped [%v] text of the children value in place of the
    placeholder. *)
Theorem children_rendered_as_value (props : list (string * value)) (v : value)
  (pre post : list seg) :
  forallb seg_ok pre = true -> forallb seg_ok post = true ->
  forallb (fun kv => brace_free (fst kv)) props = true ->
  lookup "children" props = Some v ->
  RenderComponent (template_of (pre ++ Hole 1 "children" 1 :: post)) props =
  concat_str (map (seg_out props) pre) ++ html_escape (sprint_v v) ++
  concat_str (map (seg_out props) post).
Proof.
  intros Hpre Hpost Hk Hv.
  destruct props as [|kv ps] eqn:Ep; [discriminate Hv|]. rewrite <- Ep in *.
  unfold RenderComponent. rewrite Ep. rewrite <- Ep.
  rewrite replace_segments by (try exact Hk; rewrite forallb_app; cbn [forallb seg_ok];
                               now rewrite Hpre, Hpost).
  rewrite map_app, concat_str_app. cbn [map concat_str seg_out spaces String.append].
  now rewrite Hv.
Qed.

Lemma children_rendered_as_value_witness :
  RenderComponent "<w:t>{{ children }}</w:t>" [("children", VList [VStr "a<b"])]
  = "<w:t>[a&lt;b]</w:t>".
Proof.
  change "<w:t>{{ children }}</w:t>"
    with (template_of ([Lit "<w:t>"] ++ Hole 1 "children" 1 :: [Lit "</w:t>"])).
  rewrite (children_rendered_as_value _ (VList [VStr "a<b"])); reflexivity.
Defined.

(** C6 (counterexample): only the exact text [{{ key }}], one space on each
    side, is replaced; [{{x}}] and [{{  x }}] stay as they are. *)
Lemma placeholder_spacing_kept :
  RenderComponent "{{x}}" [("x", VStr "v")] = "{{x}}" /\
  RenderComponent "{{  x }}" [("x", VStr "v")] = "{{  x }}".
Proof. split; vm_compute; reflexivity. Qed.

(** C6 (amended): read a template as literal text without [{] and brace
    pairs [{{] + [l] spaces + key + [r] spaces + [}}].  For every props map
    with brace-free keys, rendering replaces a brace pair by the escaped
    [%v] text of [props] at the key with [l - 1] and [r - 1] spaces around
    it, when [l] and [r] are positive and that key is present, and keeps
    everything else; each segment's output depends on the template and
    [props] only, so a substituted value is never substituted again. *)
Theorem render_segments (props : list (string * value)) (segs : list seg) :
  forallb seg_ok segs = true -> forallb (fun kv => brace_free (fst kv)) props = true ->
  RenderComponent (template_of segs) props = concat_str (map (seg_out props) segs).
Proof.
  intros Hs Hk. destruct props as [|kv ps].
  - unfold template_of, RenderComponent. f_equal. apply map_ext. intro sg.
    symmetry. apply seg_out_nil.
  - apply replace_segments; assumption.
Qed.

Lemma render_segments_witness :
  RenderComponent "<w:t>{{ x }}-{{x}}-{{  x  }}</w:t>" [("x", VStr "{{ x }}"); (" x ", VStr "&")]
  = "<w:t>{{ x }}-{{x}}-&amp;</w:t>".
Proof.
  change "<w:t>{{ x }}-{{x}}-{{  x  }}</w:t>"
    with (template_of [Lit "<w:t>"; Hole 1 "x" 1; Lit "-"; Hole 0 "x" 0; Lit "-";
                       Hole 2 "x" 2; Lit "</w:t>"]).
  rewrite render_segments; reflexivity.
Defined.




(* ================================================================== *)
(** * Further properties of the code *)

(** ** [Clone] *)

Lemma clone_entries_ok (es : InMemoryDocx) :
  forall acc st, exists wd st1, clone_entries es acc st = (Ok wd, st1).
Proof.
  induction es as [|[path p] es IH]; intros acc st; cbn [clone_entries].
  - now exists acc, st.
  - unfold bind at 1, read_buf. unfold bind at 1, alloc. apply IH.
Qed.

Lemma clone_entries_absent (es : InMemoryDocx) :
  forall acc st wd st1 path, clone_entries es acc st = (Ok wd, st1) ->
  lookup path es = None -> lookup path wd = lookup path acc.
Proof.
  induction es as [|[path0 p] es IH]; intros acc st wd st1 path H Hp;
    cbn [clone_entries] in H.
  - now injection H as <- _.
  - unfold bind, read_buf, alloc in H. cbn [fst snd] in H. cbn [lookup] in Hp.
    destruct (String.eqb_spec path path0) as [_|Hne]; [discriminate|].
    rewrite (IH _ _ _ _ _ H Hp), lookup_map_insert.
    now destruct (String.eqb_spec path path0).
Qed.

Lemma lookup_notin {A} (k : string) (m : list (string * A)) :
  ~ In k (map fst m) -> lookup k m = None.
Proof.
  induction m as [|[k' v] m IH]; intro H; [reflexivity|]. cbn [map fst In] in H.
  cbn [lookup]. destruct (String.eqb_spec k k') as [->|]; [now elim H; left|].
  apply IH. intro; apply H; now right.
Qed.

(** What [Clone] leaves: every path of the copied entries is bound to a new
    buffer holding the bytes of the old one, every other path keeps its
    binding, and the map grows by one entry per copied path. *)
Lemma clone_entries_spec (es : InMemoryDocx) :
  forall acc st wd st1, clone_entries es acc st = (Ok wd, st1) ->
  NoDup (map fst es) -> (forall path p, In (path, p) es -> p < next_ptr st) ->
  (forall path, In path (map fst es) -> lookup path acc = None) ->
  length wd = length acc + length es /\
  forall path,
    match lookup path es with
    | Some p => exists q, lookup path wd = Some q /\ next_ptr st <= q /\
                fst (read_buf q st1) = fst (read_buf p st)
    | None => lookup path wd = lookup path acc
    end.
Proof.
  induction es as [|[path0 p0] es IH]; intros acc st wd st1 H Hnd Hp Hacc;
    cbn [clone_entries] in H.
  - injection H as <- <-. split; [cbn; lia|]. intro; reflexivity.
  - unfold bind, read_buf, alloc in H. cbn [fst snd] in H.
    set (c0 := match heap_get (heap st) p0 with Some s => s | None => EmptyString end) in H.
    set (st2 := mkSt ((next_ptr st, c0) :: heap st) (S (next_ptr st))) in H.
    cbn [map fst] in Hnd. inversion Hnd as [|x l Hnotin Hnd']; subst x l.
    pose proof (frame_clone_entries es (map_insert path0 (next_ptr st) acc) st2)
      as [Hmono Hkeep].
    rewrite H in Hmono, Hkeep. cbn [snd next_ptr st2] in Hmono, Hkeep.
    assert (Hacc0 : lookup path0 acc = None) by (apply Hacc; now left).
    destruct (IH _ _ _ _ H Hnd') as [Hlen Hlk].
    + intros path p Hin. cbn [next_ptr st2].
      assert (p < next_ptr st) by (apply (Hp path); now right). lia.
    + intros path Hin. rewrite lookup_map_insert.
      destruct (String.eqb_spec path path0) as [->|]; [contradiction|].
      apply Hacc; now right.
    + split.
      * rewrite Hlen. cbn [length].
        assert (Hins : forall (m : list (string * nat)) k v,
                   lookup k m = None -> length (map_insert k v m) = S (length m)).
        { induction m as [|[k' v'] m IHm]; intros k v Hk; [reflexivity|].
          cbn [lookup] in Hk. cbn [map_insert].
          destruct (String.eqb k k'); [discriminate|]. cbn [length]. now rewrite IHm. }
        rewrite (Hins _ _ _ Hacc0). lia.
      * intro path. cbn [lookup]. specialize (Hlk path).
        destruct (String.eqb_spec path path0) as [->|Hne].
        -- rewrite (lookup_notin _ _ Hnotin) in Hlk. rewrite lookup_map_insert in Hlk.
           rewrite String.eqb_refl in Hlk. exists (next_ptr st). split; [exact Hlk|].
           split; [lia|]. cbn [fst read_buf]. rewrite Hkeep by lia.
           cbn [heap st2 heap_get]. now rewrite Nat.eqb_refl.
        -- destruct (lookup path es) as [p|] eqn:E.
           ++ destruct Hlk as [q [Hq [Hle Hrd]]]. exists q. split; [exact Hq|].
              split; [cbn [next_ptr st2] in Hle; lia|]. rewrite Hrd.
              cbn [fst read_buf heap st2 heap_get].
              assert (Hpl : p < next_ptr st).
              { apply (Hp path). right. clear -E. induction es as [|[k v] es IHe];
                  [discriminate|]. cbn [lookup] in E.
                destruct (String.eqb_spec path k) as [->|]; [injection E as ->; now left|].
                right; auto. }
              destruct (Nat.eqb_spec p (next_ptr st)); [lia|reflexivity].
           ++ rewrite Hlk, lookup_map_insert.
              now destruct (String.eqb_spec path path0).
Qed.

(** X1: [Clone] never fails and copies the shell: for a shell whose paths
    are distinct and whose buffers are allocated, the clone has as many
    entries as the shell, binds each path of the shell to a buffer allocated
    by [Clone] (so distinct from every existing buffer) holding the same
    bytes, and binds no other path. *)
Theorem clone_copies_shell (shell : InMemoryDocx) (st : St) :
  NoDup (map fst shell) -> (forall path p, In (path, p) shell -> p < next_ptr st) ->
  exists wd, fst (Clone shell st) = Ok wd /\ length wd = length shell /\
  forall path,
    match lookup path shell with
    | Some p => exists q, lookup path wd = Some q /\ next_ptr st <= q /\
                fst (read_buf q (snd (Clone shell st))) = fst (read_buf p st)
    | None => lookup path wd = None
    end.
Proof.
  intros Hnd Hp. unfold Clone.
  destruct (clone_entries_ok shell [] st) as [wd [st1 H]]. rewrite H. cbn [fst snd].
  exists wd. split; [reflexivity|].
  destruct (clone_entries_spec shell [] st wd st1 H Hnd Hp (fun _ _ => eq_refl))
    as [Hlen Hlk].
  split; [exact Hlen|]. intro path. specialize (Hlk path).
  destruct (lookup path shell); exact Hlk.
Qed.

Lemma clone_copies_shell_witness :
  exists wd, fst (Clone (shell sample_engine) sample_state) = Ok wd /\ length wd = 2 /\
  forall path,
    match lookup path (shell sample_engine) with
    | Some p => exists q, lookup path wd = Some q /\ next_ptr sample_state <= q /\
                fst (read_buf q (snd (Clone (shell sample_engine) sample_state))) =
                fst (read_buf p sample_state)
    | None => lookup path wd = None
    end.
Proof.
  apply (clone_copies_shell (shell sample_engine) sample_state).
  - cbn. constructor; [intros [H|[]]; discriminate H|].
    constructor; [intros []|constructor].
  - intros path p [H|[H|[]]]; injection H as _ <-; cbn; lia.
Defined.

(** ** [RenderComponent] *)

(** X2: a template without [{] contains no placeholder: [RenderComponent]
    returns it unchanged, whatever the props. *)
Theorem render_plain_template (template : string) (props : list (string * value)) :
  no_open_brace template = true -> RenderComponent template props = template.
Proof.
  intro H. destruct props as [|kv ps]; [reflexivity|]. unfold RenderComponent, Replace.
  rewrite <- (str_app_nil_r template) at 1. rewrite (replace_copy (kv :: ps) template _ H).
  apply str_app_nil_r.
Qed.

Lemma render_plain_template_witness :
  RenderComponent "<w:p><w:t>Fixed text</w:t></w:p>" [("x", VStr "v")] =
  "<w:p><w:t>Fixed text</w:t></w:p>".
Proof. apply render_plain_template. vm_compute. reflexivity. Defined.

(** ** The loop of [AssembleDocument] over the plan *)

(** X3: the loop stops at the first instance, in plan order, whose
    component is missing from the library: when every earlier instance is
    added, the result is the error naming that instance's component,
    whatever follows it. *)
Theorem add_components_first_missing (comps : list (string * string))
  (kids : list xnode) (pre : list ComponentInstance) (ci : ComponentInstance)
  (post : list ComponentInstance) :
  Forall (fun c => exists els, component_elements comps c = Ok els) pre ->
  lookup (Component ci) comps = None ->
  add_components comps kids (pre ++ ci :: post) =
  Err (AddComponentError (Component ci) (ComponentNotFoundError (Component ci))).
Proof.
  intros Hpre Hci. revert kids.
  induction Hpre as [|c pre [els Hc] _ IH]; intro kids; cbn [app add_components].
  - unfold addComponentToBody, component_elements, GetComponent. now rewrite Hci.
  - unfold addComponentToBody at 1. rewrite Hc. apply IH.
Qed.

Lemma add_components_first_missing_witness :
  add_components leaf_library [] [leaf "A"; leaf "Z"; leaf "B"; leaf "Y"] =
  Err (AddComponentError "Z" (ComponentNotFoundError "Z")).
Proof.
  apply (add_components_first_missing leaf_library [] [leaf "A"] (leaf "Z")
           [leaf "B"; leaf "Y"]).
  - constructor; [|constructor]. eexists. vm_compute. reflexivity.
  - reflexivity.
Defined.

(** X5: a shell without [word/document.xml] makes [AssembleDocument] fail
    with the error naming that part, whatever the plan. *)
Theorem assemble_needs_document_xml (deflate : string -> string) (e : Engine)
  (plan : DocumentPlan) (ord : list string) (st : St) :
  lookup "word/document.xml" (shell e) = None ->
  fst (AssembleDocument deflate e plan ord st) =
  Err (AssemblyError "word/document.xml not found in shell document").
Proof.
  intro H. unfold AssembleDocument, bind at 1.
  destruct (clone_entries_ok (shell e) [] st) as [wd [st1 Hc]]. unfold Clone. rewrite Hc.
  rewrite (clone_entries_absent _ _ _ _ _ _ Hc H). reflexivity.
Qed.

Lemma assemble_needs_document_xml_witness :
  fst (AssembleDocument (fun s => s) (mkEngine [("[Content_Types].xml", 0)] leaf_library)
         leaf_plan ["[Content_Types].xml"] sample_state) =
  Err (AssemblyError "word/document.xml not found in shell document").
Proof. apply assemble_needs_document_xml. reflexivity. Defined.

(** ** The validator *)

Lemma lookup_app {A} (k : string) (a b : list (string * A)) :
  lookup k (a ++ b) = match lookup k a with Some v => Some v | None => lookup k b end.
Proof.
  induction a as [|[k' v] a IH]; [reflexivity|]. cbn [app lookup].
  destruct (String.eqb k k'); [reflexivity|exact IH].
Qed.

Lemma props_ok_ext (name : string) (m m' : list (string * value)) :
  (forall k, In k (declared_props name) -> lookup k m = lookup k m') ->
  props_ok name m = props_ok name m'.
Proof.
  intro H. unfold props_ok, declared_props in *.
  repeat match goal with
         | |- context [String.eqb name ?s] => destruct (String.eqb name s)
         end; try reflexivity;
  unfold req_nonempty, req_string, opt_string, req_match, field;
  repeat rewrite H by (cbn [In]; repeat (first [left; reflexivity | right]));
  reflexivity.
Qed.

(** X8: [props] is an open struct: adding props whose keys the rules of
    the component do not name never changes whether an instance is valid
    ([children], say, or any extra key of a template). *)
Theorem instance_extra_props (n : string) (p extra : list (string * value)) :
  (forall k, In k (map fst extra) -> ~ In k (declared_props n)) ->
  instance_ok (VObj [("component", VStr n); ("props", VObj (p ++ extra))]) =
  instance_ok (VObj [("component", VStr n); ("props", VObj p)]).
Proof.
  intro H.
  assert (Hs : forall q, instance_ok (VObj [("component", VStr n); ("props", VObj q)]) =
                         existsb (String.eqb n) AllComponentNames && props_ok n q)
    by reflexivity.
  rewrite !Hs. f_equal. apply props_ok_ext. intros k Hk. rewrite lookup_app.
  destruct (lookup k p); [reflexivity|]. apply lookup_notin.
  intro Hin. exact (H k Hin Hk).
Qed.

Lemma instance_extra_props_witness :
  instance_ok (VObj [("component", VStr "DocumentTitle");
                     ("props", VObj ([("document_title", VStr "T")] ++
                                     [("children", VList []); ("style", VStr "bold")]))]) =
  instance_ok (VObj [("component", VStr "DocumentTitle");
                     ("props", VObj [("document_title", VStr "T")])]).
Proof.
  apply instance_extra_props. cbn. intros k [<-|[<-|[]]] [H|[]]; discriminate H.
Defined.

Lemma substring_0_all (r : string) (n : nat) : String.length r <= n -> substring 0 n r = r.
Proof.
  revert n; induction r as [|c r IH]; intros n H; destruct n as [|n]; cbn in *;
    [reflexivity|reflexivity|lia|]. f_equal. apply IH. lia.
Qed.

Lemma substring_app_l (p r : string) (n : nat) :
  substring (String.length p) n (p ++ r) = substring 0 n r.
Proof. induction p as [|c p IH]; [reflexivity|exact IH]. Qed.

Lemma drop_prefix_app (p r : string) : drop_prefix p (p ++ r) = Some r.
Proof.
  unfold drop_prefix. rewrite prefix_app, substring_app_l, substring_0_all; [reflexivity|].
  rewrite str_length_app. lia.
Qed.

Lemma drop_prefix_some (p s r : string) : drop_prefix p s = Some r -> s = p ++ r.
Proof.
  intro H. unfold drop_prefix in H. destruct (String.prefix p s) eqn:E; [|discriminate H].
  destruct (prefix_split _ _ E) as [t ->]. rewrite substring_app_l, substring_0_all in H.
  - now injection H as ->.
  - rewrite str_length_app. lia.
Qed.

Lemma count_digits_app (d r : string) :
  all_chars is_digit d = true ->
  match r with String c _ => is_digit c = false | EmptyString => True end ->
  count_digits (d ++ r) = (String.length d, r).
Proof.
  intros Hd Hr. induction d as [|c d IH].
  - destruct r as [|c r]; cbn [count_digits String.append]; [reflexivity|]. now rewrite Hr.
  - unfold all_chars in Hd. cbn [list_ascii_of_string forallb] in Hd.
    apply andb_prop in Hd as [Hc Hd]. cbn [count_digits String.append String.length].
    rewrite Hc, IH by exact Hd. reflexivity.
Qed.

Lemma count_digits_inv (s : string) :
  forall n r, count_digits s = (n, r) ->
  exists d, s = d ++ r /\ String.length d = n /\ all_chars is_digit d = true /\
            match r with String c _ => is_digit c = false | EmptyString => True end.
Proof.
  induction s as [|c s IH]; intros n r H; cbn [count_digits] in H.
  - injection H as <- <-. now exists EmptyString.
  - destruct (is_digit c) eqn:Ec.
    + destruct (count_digits s) as [n' r'] eqn:E. injection H as <- <-.
      destruct (IH _ _ eq_refl) as [d [-> [Hl [Hd Hr]]]].
      exists (String c d). cbn [String.append String.length]. repeat split; auto.
      unfold all_chars in *. cbn [list_ascii_of_string forallb]. now rewrite Ec, Hd.
    + injection H as <- <-. exists EmptyString. repeat split; auto.
Qed.

(** X9: the [document_subject] rule [=~"^DOC-\\d{4,}, Rev [A-Z]$"]: the
    accepted subjects are exactly [DOC-], at least four ASCII digits,
    [, Rev ] and one capital ASCII letter, with nothing before or after. *)
Theorem subject_ok_spec (s : string) :
  subject_ok s = true <->
  exists d c, s = "DOC-" ++ d ++ ", Rev " ++ str1 c /\ 4 <= String.length d /\
              all_chars is_digit d = true /\ is_upper c = true.
Proof.
  unfold subject_ok. split.
  - destruct (drop_prefix "DOC-" s) as [r|] eqn:E1; [|discriminate].
    destruct (count_digits r) as [n r1] eqn:E2. intro H. apply andb_prop in H as [H4 H5].
    destruct (drop_prefix ", Rev " r1) as [[|c [|c' t]]|] eqn:E3; try discriminate H5.
    apply drop_prefix_some in E1, E3. apply count_digits_inv in E2 as [d [-> [Hl [Hd _]]]].
    subst. exists d, c. apply Nat.leb_le in H4. repeat split; auto; lia.
  - intros [d [c [-> [Hl [Hd Hu]]]]]. rewrite drop_prefix_app.
    rewrite count_digits_app; [|exact Hd|reflexivity].
    rewrite drop_prefix_app. apply andb_true_intro. split; [now apply Nat.leb_le|exact Hu].
Qed.

Lemma subject_ok_spec_witness :
  subject_ok "DOC-12345, Rev B" = true /\ subject_ok "DOC-123, Rev B" = false.
Proof.
  split.
  - apply (proj2 (subject_ok_spec "DOC-12345, Rev B")).
    exists "12345", "B"%char. repeat split; vm_compute; try reflexivity. lia.
  - vm_compute. reflexivity.
Defined.

(** X10: the [test_date] rule [=~"^\\d{1,2}/\\d{1,2}/\\d{4}$"]: the
    accepted dates are exactly one or two ASCII digits, [/], one or two
    digits, [/] and four digits, with nothing before or after. *)
Theorem date_ok_spec (s : string) :
  date_ok s = true <->
  exists a b y, s = a ++ "/" ++ b ++ "/" ++ y /\
    1 <= String.length a <= 2 /\ 1 <= String.length b <= 2 /\ String.length y = 4 /\
    all_chars is_digit (a ++ b ++ y) = true.
Proof.
  unfold date_ok. split.
  - destruct (count_digits s) as [na r1] eqn:E1.
    destruct r1 as [|sl1 r2]; [now rewrite andb_false_r|].
    destruct (count_digits r2) as [nb r3] eqn:E2.
    destruct r3 as [|sl2 r4]; [now rewrite !andb_false_r|].
    destruct (count_digits r4) as [ny r5] eqn:E3.
    cbv beta iota. intro H.
    repeat match goal with
           | Hb : (_ && _) = true |- _ => apply andb_prop in Hb as [? ?]
           | Hb : Nat.leb _ _ = true |- _ => apply Nat.leb_le in Hb
           | Hb : Nat.eqb _ _ = true |- _ => apply Nat.eqb_eq in Hb
           | Hb : String.eqb _ _ = true |- _ => apply String.eqb_eq in Hb
           | Hb : is_char _ 47 = true |- _ => apply is_char_true in Hb; [|lia]
           end.
    subst. apply count_digits_inv in E1 as [a [-> [Ha [Hda _]]]].
    apply count_digits_inv in E2 as [b [-> [Hb [Hdb _]]]].
    apply count_digits_inv in E3 as [y [-> [Hy [Hdy _]]]].
    exists a, b, y. rewrite !str_app_nil_r. split; [reflexivity|].
    repeat split; try lia.
    unfold all_chars in *. rewrite !lao_app, !forallb_app, Hda, Hdb. exact Hdy.
  - intros [a [b [y [-> [Ha [Hb [Hy Hd]]]]]]].
    unfold all_chars in Hd. rewrite !lao_app, !forallb_app in Hd.
    apply andb_prop in Hd as [Hda Hd]. apply andb_prop in Hd as [Hdb Hdy].
    rewrite count_digits_app; [|exact Hda|reflexivity]. cbn [String.append].
    rewrite count_digits_app; [|exact Hdb|reflexivity]. cbn [String.append].
    rewrite <- (str_app_nil_r y). rewrite count_digits_app; [|exact Hdy|exact I].
    rewrite Hy. cbn [is_char nat_of_ascii chr].
    repeat (apply andb_true_intro; split); try apply Nat.leb_le; try lia; reflexivity.
Qed.

Lemma date_ok_spec_witness : date_ok "1/22/2024" = true /\ date_ok "1/22/24" = false.
Proof.
  split.
  - apply (proj2 (date_ok_spec "1/22/2024")).
    exists "1", "22", "2024". repeat split; vm_compute; try reflexivity; lia.
  - vm_compute. reflexivity.
Defined.

(** ** [LoadComponents] *)

Lemma substring_split (s : string) (k : nat) :
  k <= String.length s -> substring 0 k s ++ substring k (String.length s - k) s = s.
Proof.
  revert k; induction s as [|c s IH]; intros k H; destruct k as [|k]; cbn in *.
  - reflexivity.
  - lia.
  - f_equal. apply substring_0_all. lia.
  - f_equal. apply IH. lia.
Qed.

Lemma substring_0_app (a b : string) : substring 0 (String.length a) (a ++ b) = a.
Proof. induction a as [|c a IH]; cbn; [now destruct b|now rewrite IH]. Qed.

Lemma has_suffix_app (suf name : string) :
  has_suffix suf (name ++ suf) = true /\ trim_suffix suf (name ++ suf) = name.
Proof.
  assert (Hl : String.length (name ++ suf) - String.length suf = String.length name)
    by (rewrite str_length_app; lia).
  assert (Hs : has_suffix suf (name ++ suf) = true).
  { unfold has_suffix. rewrite Hl, substring_app_l, substring_0_all, String.eqb_refl by lia.
    rewrite str_length_app. apply andb_true_intro; split; [apply Nat.leb_le; lia|reflexivity]. }
  split; [exact Hs|]. unfold trim_suffix. rewrite Hs, Hl. apply substring_0_app.
Qed.

Lemma has_suffix_inv (suf s : string) :
  has_suffix suf s = true -> s = trim_suffix suf s ++ suf.
Proof.
  intro H. unfold trim_suffix. rewrite H. unfold has_suffix in H.
  apply andb_prop in H as [H1 H2]. apply Nat.leb_le in H1. apply String.eqb_eq in H2.
  pose proof (substring_split s (String.length s - String.length suf) ltac:(lia)) as E.
  replace (String.length s - (String.length s - String.length suf))
    with (String.length suf) in E by lia.
  rewrite H2 in E. now symmetry.
Qed.

(** The test of the walk function, read as a statement on the file name. *)
Lemma component_file_iff (ev : walk_event) (name : string) :
  (negb (ev_is_dir ev) && has_suffix component_ext (ev_name ev) = true /\
   trim_suffix component_ext (ev_name ev) = name) <->
  (ev_is_dir ev = false /\ ev_name ev = name ++ component_ext).
Proof.
  split.
  - intros [H <-]. apply andb_prop in H as [Hd Hs]. apply negb_true_iff in Hd.
    split; [exact Hd|]. now apply has_suffix_inv.
  - intros [Hd ->]. rewrite Hd. destruct (has_suffix_app component_ext name) as [-> ->].
    now split.
Qed.

Lemma split_cons {A} (P : A -> Prop) (Q : list A -> Prop) (x : A) (l : list A) :
  (exists pre e post, x :: l = (pre ++ e :: post)%list /\ P e /\ Q post) <->
  (P x /\ Q l) \/ (exists pre e post, l = (pre ++ e :: post)%list /\ P e /\ Q post).
Proof.
  split.
  - intros [[|y pre] [e [post [E [HP HQ]]]]]; cbn [app] in E; injection E as E1 E2; subst.
    + now left.
    + right. now exists pre, e, post.
  - intros [[HP HQ]|[pre [e [post [-> [HP HQ]]]]]].
    + now exists [], x, l.
    + now exists (x :: pre), e, post.
Qed.

Section LoadWalk.
Variable name : string.
Local Abbreviation file_for := (component_file_for name).
Local Abbreviation load_origin := (load_origin name).

Lemma load_origin_skip (ev : walk_event) (evs : list walk_event)
  (acc acc' : list (string * string)) (c : string) :
  ~ file_for ev -> lookup name acc' = lookup name acc ->
  load_origin evs acc' c <-> load_origin (ev :: evs) acc c.
Proof.
  intros Hev Hacc. unfold load_origin. rewrite Hacc.
  pose proof (split_cons (fun e => file_for e /\ ev_read e = Some c)
                         (fun post => Forall (fun e => ~ file_for e) post) ev evs) as Hs.
  split.
  - intros [[pre [e [post [E [HF [Hr HP]]]]]]|[HP Hl]].
    + left. destruct (proj2 Hs) as [pre' [e' [post' [E' [[HF' Hr'] HP']]]]].
      * right. now exists pre, e, post.
      * now exists pre', e', post'.
    + right. split; [now constructor|exact Hl].
  - intros [[pre [e [post [E [HF [Hr HP]]]]]]|[HP Hl]].
    + destruct (proj1 Hs) as [[[HF' _] _]|[pre' [e' [post' [E' [[HF' Hr'] HP']]]]]].
      * now exists pre, e, post.
      * now elim Hev.
      * left. now exists pre', e', post'.
    + inversion HP as [|x l _ HP']; subst. right. now split.
Qed.

Lemma load_walk_origin (evs : list walk_event) :
  forall acc comps, load_walk evs acc = Some comps ->
  forall c, lookup name comps = Some c <-> load_origin evs acc c.
Proof.
  induction evs as [|ev evs IH]; intros acc comps H c; cbn [load_walk] in H.
  - injection H as <-. unfold load_origin. split.
    + intro Hl. right. split; [constructor|exact Hl].
    + intros [[[|] [e [post [E _]]]]|[_ Hl]]; [discriminate E|discriminate E|exact Hl].
  - destruct (ev_err ev); [discriminate H|].
    destruct (negb (ev_is_dir ev) && has_suffix component_ext (ev_name ev)) eqn:Ef.
    + destruct (ev_read ev) as [content|] eqn:Er; [|discriminate H].
      rewrite (IH _ _ H c).
      destruct (String.eqb_spec name (trim_suffix component_ext (ev_name ev))) as [Hn|Hn].
      * assert (HF : file_for ev) by (apply component_file_iff; now split).
        unfold load_origin. rewrite lookup_map_insert, <- Hn, String.eqb_refl.
        split.
        -- intros [[pre [e [post [E [HF' [Hr HP]]]]]]|[HP Hl]].
           ++ left. exists (ev :: pre), e, post. rewrite E.
              split; [reflexivity|]. split; [exact HF'|]. split; [exact Hr|exact HP].
           ++ left. exists [], ev, evs. rewrite Er. injection Hl as <-.
              split; [reflexivity|]. split; [exact HF|]. split; [reflexivity|exact HP].
        -- intros [[[|x pre] [e [post [E [HF' [Hr HP]]]]]]|[HP Hl]].
           ++ injection E as <- <-. right. split; [exact HP|]. now rewrite Hr in Er.
           ++ injection E as <- ->. left. now exists pre, e, post.
           ++ inversion HP as [|x l HP0 _]. contradiction.
      * apply load_origin_skip.
        -- intros HF. apply Hn. symmetry. now apply component_file_iff.
        -- rewrite lookup_map_insert. now destruct (String.eqb_spec name (trim_suffix component_ext (ev_name ev))).
    + rewrite (IH _ _ H c). apply load_origin_skip; [|reflexivity].
      intros HF. apply (proj2 (component_file_iff ev name)) in HF as [HF _].
      rewrite Ef in HF. discriminate HF.
Qed.

End LoadWalk.

(** X11: after a successful [LoadComponents], a name is bound to the
    content [c] exactly when some visited regular file is named
    [name.component.xml] and read as [c], and no later visited regular file
    has that name: among files of the same name in different directories,
    the last one the walk visits wins; other files are ignored. *)
Theorem load_components_last_wins (evs : list walk_event) (comps : list (string * string)) :
  LoadComponents evs = Some comps ->
  forall name c, lookup name comps = Some c <->
  exists pre ev post, evs = (pre ++ ev :: post)%list /\ component_file_for name ev /\
                      ev_read ev = Some c /\
                      Forall (fun e => ~ component_file_for name e) post.
Proof.
  intros H name c. rewrite (load_walk_origin name evs [] comps H c). unfold load_origin.
  split; [intros [Hx|[_ Hl]]; [exact Hx|discriminate Hl]|intro Hx; now left].
Qed.

Lemma load_components_last_wins_witness :
  exists pre ev post,
    sample_walk = (pre ++ ev :: post)%list /\ component_file_for "Title" ev /\
    ev_read ev = Some "<w:p>2</w:p>" /\
    Forall (fun e => ~ component_file_for "Title" e) post.
Proof.
  apply (proj1 (load_components_last_wins sample_walk [("Title", "<w:p>2</w:p>")] eq_refl
                  "Title" "<w:p>2</w:p>")).
  reflexivity.
Defined.

(** ** [extractPath] *)

Local Abbreviation no_space := (fun c => negb (ascii_space c)).

Lemma space_len_ascii (c : ascii) (s : string) :
  space_len (String c s) = 0 -> ascii_space c = false.
Proof. cbn [space_len]. now destruct (ascii_space c). Qed.

Lemma fields_from_clean (s : string) :
  forall skip cur, all_chars no_space cur = true ->
  Forall (fun f => 0 < String.length f /\ all_chars no_space f = true) (fields_from s skip cur).
Proof.
  induction s as [|c s IH]; intros skip cur Hcur; cbn [fields_from].
  - destruct (String.eqb_spec cur EmptyString) as [_|Hne]; [constructor|].
    constructor; [|constructor]. split; [|exact Hcur].
    destruct cur; [now elim Hne|cbn; lia].
  - destruct skip as [|k]; [|now apply IH].
    destruct (space_len (String c s)) as [|k] eqn:E.
    + apply IH. unfold snoc, all_chars in *. rewrite lao_app, forallb_app, Hcur.
      cbn. now rewrite (space_len_ascii c s E).
    + apply Forall_app. split; [|now apply IH].
      destruct (String.eqb_spec cur EmptyString) as [_|Hne]; [constructor|].
      constructor; [|constructor]. split; [|exact Hcur].
      destruct cur; [now elim Hne|cbn; lia].
Qed.

Lemma cut_neq (c d : ascii) : in_cutset c = true -> in_cutset d = false -> Ascii.eqb d c = false.
Proof. intros Hc Hd. destruct (Ascii.eqb_spec d c) as [->|]; [congruence|reflexivity]. Qed.

Lemma trim_left_sub (f : ascii -> bool) (d : ascii) (s : string) :
  in_cutset d = false ->
  (all_chars f s = true -> all_chars f (trim_left s) = true) /\
  contains_char d (trim_left s) = contains_char d s.
Proof.
  intro Hd. induction s as [|c s IH]; cbn [trim_left]; [now split|].
  destruct (in_cutset c) eqn:Ec; [|now split].
  destruct IH as [IH1 IH2]. split.
  - intro H. apply IH1. unfold all_chars in *. cbn in H. now apply andb_prop in H as [_ H].
  - rewrite IH2. cbn [contains_char]. now rewrite (cut_neq c d Ec Hd).
Qed.

Lemma trim_right_sub (f : ascii -> bool) (d : ascii) (s : string) :
  in_cutset d = false ->
  (all_chars f s = true -> all_chars f (trim_right s) = true) /\
  contains_char d (trim_right s) = contains_char d s.
Proof.
  intro Hd. induction s as [|c s IH]; cbn [trim_right]; [now split|].
  destruct IH as [IH1 IH2].
  destruct (String.eqb_spec (trim_right s) EmptyString) as [E|E];
    destruct (in_cutset c) eqn:Ec; cbn [andb].
  - split; [reflexivity|]. cbn [contains_char]. rewrite <- IH2, E, (cut_neq c d Ec Hd).
    reflexivity.
  - split.
    + unfold all_chars in *. cbn. intro H. apply andb_prop in H as [H1 H2].
      rewrite H1. now apply IH1.
    + cbn [contains_char]. now rewrite IH2.
  - split.
    + unfold all_chars in *. cbn. intro H. apply andb_prop in H as [H1 H2].
      rewrite H1. now apply IH1.
    + cbn [contains_char]. now rewrite IH2.
  - split.
    + unfold all_chars in *. cbn. intro H. apply andb_prop in H as [H1 H2].
      rewrite H1. now apply IH1.
    + cbn [contains_char]. now rewrite IH2.
Qed.

Lemma trim_cut_sub (f : ascii -> bool) (d : ascii) (s : string) :
  in_cutset d = false ->
  (all_chars f s = true -> all_chars f (trim_cut s) = true) /\
  contains_char d (trim_cut s) = contains_char d s.
Proof.
  intro Hd. unfold trim_cut.
  destruct (trim_left_sub f d s Hd) as [L1 L2].
  destruct (trim_right_sub f d (trim_left s) Hd) as [R1 R2].
  split; [auto|now rewrite R2].
Qed.

Lemma first_cleaned_some (ok : string -> bool) (parts : list string) (p : string) :
  first_cleaned ok parts = Some p ->
  exists part, In part parts /\ ok part = true /\ p = trim_cut part /\ 1 < String.length p.
Proof.
  induction parts as [|part parts IH]; cbn [first_cleaned]; [discriminate|].
  destruct (ok part) eqn:Eok.
  - destruct (Nat.ltb_spec 1 (String.length (trim_cut part))) as [Hl|_].
    + intro H. injection H as <-. exists part. now repeat split; [left| |].
    + intro H. destruct (IH H) as [x [Hx Hr]]. exists x. split; [now right|exact Hr].
  - intro H. destruct (IH H) as [x [Hx Hr]]. exists x. split; [now right|exact Hr].
Qed.

(** X12: [extractPath] answers ["root"] or a cleaned field of the message
    (a field of [strings.Fields] passed through [Trim]): a text of at least two bytes, without ASCII white space, holding a [.]
    or both brackets ([Trim] only removes [( ) : , ;], so the dot or the
    brackets that selected the field survive the cleaning). *)
Theorem extract_path_shape (msg : string) :
  let p := extractPath msg in
  p = "root" \/
  exists part, In part (fields msg) /\ p = trim_cut part /\
  (1 < String.length p /\ all_chars (fun c => negb (ascii_space c)) p = true /\
   (contains_char "." p || (contains_char "[" p && contains_char "]" p)) = true).
Proof.
  intro p. subst p. unfold extractPath.
  assert (Hf : forall part, In part (fields msg) -> all_chars no_space part = true).
  { intros part Hin. pose proof (fields_from_clean msg 0 EmptyString eq_refl) as HF.
    rewrite Forall_forall in HF. now apply HF. }
  assert (Hsel : forall ok, (forall part, ok part = true ->
                   contains_char "." part || (contains_char "[" part && contains_char "]" part)
                   = true) ->
                 forall q, first_cleaned ok (fields msg) = Some q ->
                 exists part, In part (fields msg) /\ q = trim_cut part /\
                 (1 < String.length q /\ all_chars no_space q = true /\
                 (contains_char "." q || (contains_char "[" q && contains_char "]" q)) = true)).
  { intros ok Hok q Hq. destruct (first_cleaned_some _ _ _ Hq) as [part [Hin [Hp [-> Hl]]]].
    exists part. split; [exact Hin|]. split; [reflexivity|].
    split; [exact Hl|]. split.
    - apply (trim_cut_sub no_space "." part eq_refl). now apply Hf.
    - rewrite (proj2 (trim_cut_sub no_space "." part eq_refl)),
              (proj2 (trim_cut_sub no_space "[" part eq_refl)),
              (proj2 (trim_cut_sub no_space "]" part eq_refl)).
      now apply Hok. }
  destruct (if contains_char "." msg then _ else None) as [q|] eqn:E1.
  - right. destruct (contains_char "." msg); [|discriminate E1].
    eapply Hsel; [|exact E1]. intros part Hp. cbv beta in Hp.
    apply andb_prop in Hp as [-> _]. reflexivity.
  - destruct (if contains_char "[" msg && contains_char "]" msg then _ else None)
      as [q|] eqn:E2; [|now left].
    right. destruct (contains_char "[" msg && contains_char "]" msg); [|discriminate E2].
    eapply Hsel; [|exact E2]. intros part Hp. cbv beta in Hp.
    rewrite Hp. apply orb_true_r.
Qed.

Lemma extract_path_shape_witness :
  extractPath "body.0.props.document_title: conflicting values" = "body.0.props.document_title"
  /\ extractPath "#DocumentPlan: field not allowed" = "root".
Proof.
  split; [|vm_compute; reflexivity].
  destruct (extract_path_shape "body.0.props.document_title: conflicting values") as [H|H];
    vm_compute in H |- *; [discriminate H|reflexivity].
Defined.

(** ** [GenerateHandler] *)

Lemma lower_str_app (a b : string) : lower_str (a ++ b) = lower_str a ++ lower_str b.
Proof. induction a as [|c a IH]; cbn; [reflexivity|now rewrite IH]. Qed.

Lemma has_docx_suffix_app (f : string) : has_docx_suffix (f ++ ".docx") = true.
Proof.
  unfold has_docx_suffix. rewrite lower_str_app.
  change (lower_str ".docx") with ".docx". apply has_suffix_app.
Qed.

Lemma has_docx_suffix_nonempty (f : string) : has_docx_suffix f = true -> f <> EmptyString.
Proof. intros H ->. discriminate H. Qed.

Lemma response_filename_suffix (fn : string) : has_docx_suffix (response_filename fn) = true.
Proof.
  unfold response_filename.
  destruct (String.eqb fn EmptyString); [reflexivity|].
  destruct (has_docx_suffix fn) eqn:E; [exact E|apply has_docx_suffix_app].
Qed.

(** X13: the download name of [GenerateHandler]: it always ends in
    [.docx] in some letter case, it starts with the plan's [filename] when
    that one is not empty, and the rule is idempotent (a name it produces
    is kept as it is). *)
Theorem response_filename_docx (fn : string) :
  has_docx_suffix (response_filename fn) = true /\
  (fn = EmptyString \/ exists sfx, response_filename fn = fn ++ sfx) /\
  response_filename (response_filename fn) = response_filename fn.
Proof.
  split; [apply response_filename_suffix|]. split.
  - unfold response_filename. destruct (String.eqb_spec fn EmptyString) as [->|_];
      [now left|right].
    destruct (has_docx_suffix fn); [exists EmptyString; now rewrite str_app_nil_r|now eexists].
  - pose proof (response_filename_suffix fn) as H.
    pose proof (has_docx_suffix_nonempty _ H) as Hne.
    unfold response_filename at 1. destruct (String.eqb_spec (response_filename fn) EmptyString)
      as [E|_]; [contradiction|]. now rewrite H.
Qed.

(** ** [RenderComponent] and the order of [range props] *)

Lemma split_at_char_app (c : ascii) (a r : string) :
  forallb (fun d => negb (Ascii.eqb c d)) (list_ascii_of_string a) = true ->
  split_at_char c (a ++ String c r) = (a, String c r).
Proof.
  induction a as [|d a IH]; intro H; cbn [String.append split_at_char].
  - now rewrite Ascii.eqb_refl.
  - cbn [list_ascii_of_string forallb] in H. apply andb_prop in H as [Hd Ha].
    apply negb_true_iff in Hd. rewrite Hd, IH by exact Ha. reflexivity.
Qed.

(** A placeholder of a brace-free key determines the key. *)
Lemma placeholder_unique (k1 k2 s : string) :
  brace_free k1 = true -> brace_free k2 = true ->
  String.prefix (placeholder k1) s = true -> String.prefix (placeholder k2) s = true ->
  k1 = k2.
Proof.
  assert (Hb : forall k t, brace_free k = true ->
            fst (split_at_char "}" (k ++ String " " (String "}" (String "}" t)))) = k ++ " ").
  { intros k t Hk. replace (k ++ String " " (String "}" (String "}" t))) with ((k ++ " ") ++ String "}" ("}" ++ t))
      by (rewrite str_app_assoc; reflexivity).
    rewrite split_at_char_app; [reflexivity|].
    unfold brace_free, all_chars in Hk. rewrite lao_app, forallb_app.
    replace (forallb _ (list_ascii_of_string " ")) with true by reflexivity.
    rewrite andb_true_r. apply forallb_forall. intros d Hd.
    rewrite forallb_forall in Hk. specialize (Hk d Hd). unfold not_brace in Hk.
    apply andb_prop in Hk as [_ Hk]. apply negb_true_iff.
    destruct (Ascii.eqb "}" d) eqn:Ed; [|reflexivity].
    apply Ascii.eqb_eq in Ed. subst d. discriminate Hk. }
  intros H1 H2 P1 P2. unfold placeholder in P1, P2.
  destruct (prefix_split _ _ P1) as [t1 E1]. destruct (prefix_split _ _ P2) as [t2 E2].
  rewrite E1 in E2. rewrite !str_app_assoc in E2. cbn [String.append] in E2.
  injection E2 as E2.
  pose proof (f_equal (fun x => fst (split_at_char "}" x)) E2) as E. cbn beta in E.
  rewrite (Hb _ _ H1), (Hb _ _ H2) in E.
  apply (f_equal list_ascii_of_string) in E. rewrite !lao_app in E.
  apply app_inv_tail in E. now apply lao_inj.
Qed.

Lemma first_match_found (pats : list (string * string)) (s : string) (p : string * string) :
  first_match pats s = Some p -> In p pats /\ String.prefix (fst p) s = true.
Proof.
  induction pats as [|[o n] pats IH]; intro H; [discriminate H|].
  rewrite first_match_cons in H. destruct (String.prefix o s) eqn:E.
  - injection H as <-. split; [now left|exact E].
  - destruct (IH H) as [Hin Hp]. split; [now right|exact Hp].
Qed.

Lemma first_match_nothing (pats : list (string * string)) (s : string) :
  first_match pats s = None -> forall p, In p pats -> String.prefix (fst p) s = false.
Proof.
  induction pats as [|[o n] pats IH]; intros H p Hin; [destruct Hin|].
  rewrite first_match_cons in H. destruct (String.prefix o s) eqn:E; [discriminate H|].
  destruct Hin as [<-|Hin]; [exact E|exact (IH H p Hin)].
Qed.

(** When at most one entry of the list can match at [s], the entry found does
    not depend on the order of the list. *)
Lemma first_match_perm (pats pats' : list (string * string)) (s : string) :
  Permutation pats pats' ->
  (forall a b, In a pats -> In b pats ->
     String.prefix (fst a) s = true -> String.prefix (fst b) s = true -> a = b) ->
  first_match pats s = first_match pats' s.
Proof.
  intros Hp Hu.
  destruct (first_match pats s) as [a|] eqn:Ea, (first_match pats' s) as [b|] eqn:Eb.
  - apply first_match_found in Ea as [Ia Pa], Eb as [Ib Pb].
    apply Permutation_sym in Hp. apply (Permutation_in _ Hp) in Ib.
    f_equal. exact (Hu a b Ia Ib Pa Pb).
  - apply first_match_found in Ea as [Ia Pa]. apply (Permutation_in _ Hp) in Ia.
    rewrite (first_match_nothing _ _ Eb _ Ia) in Pa. discriminate Pa.
  - apply first_match_found in Eb as [Ib Pb]. apply Permutation_sym in Hp.
    apply (Permutation_in _ Hp) in Ib.
    rewrite (first_match_nothing _ _ Ea _ Ib) in Pb. discriminate Pb.
  - reflexivity.
Qed.

Lemma replace_from_ext (pats pats' : list (string * string)) (s : string) (skip : nat) :
  (forall t, first_match pats t = first_match pats' t) ->
  replace_from pats s skip = replace_from pats' s skip.
Proof.
  intro H. revert skip. induction s as [|c s IH]; intro skip; [reflexivity|].
  cbn [replace_from]. destruct skip as [|k]; [|apply IH].
  rewrite H. destruct (first_match pats' (String c s)) as [[o n]|]; now rewrite IH.
Qed.

Lemma nodup_keys_value (A : Type) (l : list (string * A)) (k : string) (v1 v2 : A) :
  NoDup (map fst l) -> In (k, v1) l -> In (k, v2) l -> v1 = v2.
Proof.
  induction l as [|[k' v] l IH]; intros Hd H1 H2; [destruct H1|].
  cbn [map fst] in Hd. inversion Hd as [|x y Hnin Hd' Heq]; subst.
  destruct H1 as [E1|H1], H2 as [E2|H2].
  - rewrite E1 in E2. now injection E2.
  - injection E1 as <- <-. elim Hnin. now apply (in_map fst) in H2.
  - injection E2 as <- <-. elim Hnin. now apply (in_map fst) in H1.
  - exact (IH Hd' H1 H2).
Qed.

Lemma replacement_pairs_unique (props : list (string * value)) (s : string) :
  NoDup (map fst props) -> forallb (fun kv => brace_free (fst kv)) props = true ->
  forall a b, In a (map replacement_pair props) -> In b (map replacement_pair props) ->
  String.prefix (fst a) s = true -> String.prefix (fst b) s = true -> a = b.
Proof.
  intros Hd Hk a b Ia Ib Pa Pb.
  apply in_map_iff in Ia as [[ka va] [<- Ia]], Ib as [[kb vb] [<- Ib]].
  rewrite forallb_forall in Hk.
  pose proof (Hk _ Ia) as Ha. pose proof (Hk _ Ib) as Hb. cbn [fst] in Ha, Hb.
  unfold replacement_pair in Pa, Pb |- *. cbn [fst snd] in Pa, Pb |- *.
  pose proof (placeholder_unique _ _ _ Ha Hb Pa Pb) as <-.
  now rewrite (nodup_keys_value _ _ _ _ _ Hd Ia Ib).
Qed.

(** X15: with brace-free, pairwise distinct keys (the keys of a Go map), the
    output of [RenderComponent] does not depend on the order in which
    [range props] visits the map. *)
Theorem render_order_independent (template : string) (props props' : list (string * value)) :
  Permutation props props' -> NoDup (map fst props) ->
  forallb (fun kv => brace_free (fst kv)) props = true ->
  RenderComponent template props = RenderComponent template props'.
Proof.
  intros Hp Hd Hk. unfold RenderComponent.
  destruct props as [|kv ps] eqn:Eps.
  - apply Permutation_nil in Hp as ->. reflexivity.
  - destruct props' as [|kv' ps'].
    { apply Permutation_sym, Permutation_nil in Hp. discriminate Hp. }
    rewrite <- Eps in Hp, Hd, Hk |- *. unfold Replace. apply replace_from_ext. intro t.
    apply first_match_perm; [now apply Permutation_map|].
    exact (replacement_pairs_unique props t Hd Hk).
Qed.

Lemma render_order_independent_witness :
  RenderComponent "<w:t>{{ a }}-{{ b }}</w:t>" [("a", VStr "1"); ("b", VStr "2")] =
  RenderComponent "<w:t>{{ a }}-{{ b }}</w:t>" [("b", VStr "2"); ("a", VStr "1")].
Proof.
  apply render_order_independent.
  - apply perm_swap.
  - repeat constructor; cbv; intuition discriminate.
  - vm_compute. reflexivity.
Defined.
